(** * pykorad: a shallow embedding of [pykorad.py]

    The driver talks to a KORAD bench power supply over a serial line.
    This development embeds the class [PowerSupply] of [pykorad.py]:

    - [Py] holds the Python built-ins the driver calls ([bytes], [str],
      UTF-8 [encode]/[decode], [float(...)] on a byte string and
      [str.format] of a float or an int);
    - [Serial] holds the part of a pyserial port the driver uses
      ([write], [read], [close]);
    - the rest follows [pykorad.py] method by method, in a state and
      exception monad over the connection object. *)

From Stdlib Require Import ZArith List Bool Lia Floats.
From Stdlib.Strings Require Import String Ascii Byte.
Import ListNotations.
Open Scope Z_scope.

(** Decimal float literals stand for the nearest binary64 value, as in
    Python. *)
Set Warnings "-inexact-float".

(* ================================================================= *)
(** ** Python built-ins *)

Module Py.

(** [bytes] and [bytearray]: a sequence of bytes. *)
Definition bytes := list byte.

(** [str]: a sequence of Unicode code points. *)
Definition str := list Z.

Definition code (c : byte) : Z := Z.of_N (Byte.to_N c).

Definition byte_of_Z (z : Z) : byte :=
  match Byte.of_N (Z.to_N z) with
  | Some x => x
  | None => x00
  end.

(** A bytes literal [b'...'] and an ASCII string literal ['...']. *)
Definition b (s : string) : bytes := list_byte_of_string s.
Definition u (s : string) : str := map code (list_byte_of_string s).

Definition bytes_eq_dec : forall x y : bytes, {x = y} + {x <> y} :=
  list_eq_dec Byte.byte_eq_dec.

(** [x == y] on byte strings. *)
Definition bytes_eqb (x y : bytes) : bool :=
  if bytes_eq_dec x y then true else false.

(* ----------------------------------------------------------------- *)
(** *** UTF-8 *)

(** [chr.encode("utf-8")] for one code point; [None] is
    [UnicodeEncodeError] (a surrogate, or no code point at all). *)
Definition utf8_encode_char (c : Z) : option bytes :=
  if c <? 0 then None
  else if c <? 0x80 then Some [byte_of_Z c]
  else if c <? 0x800 then
    Some [byte_of_Z (0xC0 + c / 64); byte_of_Z (0x80 + c mod 64)]
  else if c <? 0x10000 then
    if (0xD800 <=? c) && (c <? 0xE000) then None
    else Some [byte_of_Z (0xE0 + c / 4096);
               byte_of_Z (0x80 + (c / 64) mod 64);
               byte_of_Z (0x80 + c mod 64)]
  else if c <? 0x110000 then
    Some [byte_of_Z (0xF0 + c / 262144);
          byte_of_Z (0x80 + (c / 4096) mod 64);
          byte_of_Z (0x80 + (c / 64) mod 64);
          byte_of_Z (0x80 + c mod 64)]
  else None.

(** [s.encode("utf-8")]. *)
Fixpoint utf8_encode (s : str) : option bytes :=
  match s with
  | [] => Some []
  | c :: t =>
      match utf8_encode_char c, utf8_encode t with
      | Some x, Some y => Some (x ++ y)
      | _, _ => None
      end
  end.

Definition is_cont (x : byte) : bool := (0x80 <=? code x) && (code x <=? 0xBF).
Definition cont (x : byte) : Z := code x - 0x80.
Definition in_range (lo hi : Z) (x : byte) : bool := (lo <=? code x) && (code x <=? hi).

(** [data.decode("utf-8")], the strict decoder: well-formed sequences
    only (no overlong form, no surrogate, nothing above U+10FFFF);
    [None] is [UnicodeDecodeError]. *)
Fixpoint utf8_decode (l : bytes) : option str :=
  match l with
  | [] => Some []
  | b1 :: t1 =>
      if code b1 <? 0x80 then option_map (cons (code b1)) (utf8_decode t1)
      else
        match t1 with
        | [] => None
        | b2 :: t2 =>
            if in_range 0xC2 0xDF b1 then
              if is_cont b2 then
                option_map (cons ((code b1 - 0xC0) * 64 + cont b2)) (utf8_decode t2)
              else None
            else
              match t2 with
              | [] => None
              | b3 :: t3 =>
                  if in_range 0xE0 0xEF b1 then
                    if (if code b1 =? 0xE0 then in_range 0xA0 0xBF b2
                        else if code b1 =? 0xED then in_range 0x80 0x9F b2
                        else is_cont b2) && is_cont b3
                    then option_map
                           (cons ((code b1 - 0xE0) * 4096 + cont b2 * 64 + cont b3))
                           (utf8_decode t3)
                    else None
                  else
                    match t3 with
                    | [] => None
                    | b4 :: t4 =>
                        if in_range 0xF0 0xF4 b1
                           && (if code b1 =? 0xF0 then in_range 0x90 0xBF b2
                               else if code b1 =? 0xF4 then in_range 0x80 0x8F b2
                               else is_cont b2)
                           && is_cont b3 && is_cont b4
                        then option_map
                               (cons ((code b1 - 0xF0) * 262144 + cont b2 * 4096
                                      + cont b3 * 64 + cont b4))
                               (utf8_decode t4)
                        else None
                    end
              end
        end
  end.

(* ----------------------------------------------------------------- *)
(** *** [float(x)] for a byte string [x]

    CPython's [PyFloat_FromString]: underscores between digits are
    dropped, ASCII white space is stripped at both ends, and what is
    left must be, as a whole, an optionally signed [inf], [infinity] or
    [nan] (in any letter case) or a decimal number with an optional
    exponent.  The number is rounded to the nearest binary64 value, ties
    to even; a number too large becomes an infinity.  [None] is
    [ValueError].  (CPython also refuses a literal of more than 10^9
    digits; no reply of the device is that long.) *)

Definition is_space (c : byte) : bool :=
  ((9 <=? code c) && (code c <=? 13)) || (code c =? 32).
Definition is_digit (c : byte) : bool := (48 <=? code c) && (code c <=? 57).
Definition is_underscore (c : byte) : bool := code c =? 95.
Definition to_lower (c : byte) : Z :=
  if (65 <=? code c) && (code c <=? 90) then code c + 32 else code c.

Fixpoint span {A} (p : A -> bool) (l : list A) : list A * list A :=
  match l with
  | x :: t => if p x then let (a, r) := span p t in (x :: a, r) else ([], l)
  | [] => ([], [])
  end.

Fixpoint drop_while {A} (p : A -> bool) (l : list A) : list A :=
  match l with
  | x :: t => if p x then drop_while p t else l
  | [] => []
  end.

Definition strip (s : bytes) : bytes :=
  rev (drop_while is_space (rev (drop_while is_space s))).

(** An underscore must stand between two digits; [prev] is the byte
    before [s]. *)
Fixpoint remove_underscores (prev : option byte) (s : bytes) : option bytes :=
  match s with
  | [] =>
      match prev with
      | Some p => if is_underscore p then None else Some []
      | None => Some []
      end
  | c :: t =>
      let prev_digit := match prev with Some p => is_digit p | None => false end in
      let prev_under := match prev with Some p => is_underscore p | None => false end in
      if is_underscore c then
        if prev_digit then remove_underscores (Some c) t else None
      else if prev_under && negb (is_digit c) then None
      else option_map (cons c) (remove_underscores (Some c) t)
  end.

Definition digits_value (ds : bytes) : Z :=
  fold_left (fun acc d => 10 * acc + (code d - 48)) ds 0.

(** What a float literal denotes before rounding:
    [mantissa * 10 ^ exp10], an infinity, or not a number. *)
Inductive literal :=
| Finite (neg : bool) (mantissa : Z) (exp10 : Z)
| Infinity (neg : bool)
| NaN.

Definition parse_sign (s : bytes) : bool * bytes :=
  match s with
  | c :: t =>
      if code c =? 45 then (true, t)
      else if code c =? 43 then (false, t)
      else (false, s)
  | [] => (false, s)
  end.

Definition is_word (w : string) (s : bytes) : bool :=
  if list_eq_dec Z.eq_dec (map to_lower s) (u w) then true else false.

(** The exponent part, up to the end of the input. *)
Definition parse_exponent (s : bytes) : option Z :=
  match s with
  | [] => Some 0
  | c :: t =>
      if to_lower c =? 101 then
        let (neg, t') := parse_sign t in
        let (ds, rest) := span is_digit t' in
        match ds, rest with
        | _ :: _, [] => Some (if neg then - digits_value ds else digits_value ds)
        | _, _ => None
        end
      else None
  end.

Definition parse_number (neg : bool) (s : bytes) : option literal :=
  let (ip, r1) := span is_digit s in
  let '(fp, r2) :=
    match r1 with
    | c :: t => if code c =? 46 then span is_digit t else ([], r1)
    | [] => ([], r1)
    end in
  match ip ++ fp with
  | [] => None
  | ds =>
      match parse_exponent r2 with
      | Some e => Some (Finite neg (digits_value ds) (e - Z.of_nat (List.length fp)))
      | None => None
      end
  end.

Definition parse_stripped (s : bytes) : option literal :=
  let (neg, s') := parse_sign s in
  if is_word "inf" s' || is_word "infinity" s' then Some (Infinity neg)
  else if is_word "nan" s' then Some NaN
  else parse_number neg s'.

Definition parse_literal (s : bytes) : option literal :=
  match remove_underscores None s with
  | Some s' => parse_stripped (strip s')
  | None => None
  end.

(** Rounding to binary64, by the Standard Library's specification of
    IEEE 754 division ([SFdiv] rounds to nearest, ties to even). *)
Definition round_literal (l : literal) : float :=
  match l with
  | NaN => nan
  | Infinity neg => if neg then neg_infinity else infinity
  | Finite neg m k =>
      match m with
      | Zpos p =>
          let num := if 0 <? k then (p * Pos.pow 10 (Z.to_pos k))%positive else p in
          let den := if k <? 0 then Pos.pow 10 (Z.to_pos (- k)) else 1%positive in
          SF2Prim (SFdiv prec emax (S754_finite neg num 0) (S754_finite false den 0))
      | _ => if neg then (-0)%float else 0%float
      end
  end.

Definition float_of_bytes (s : bytes) : option float :=
  option_map round_literal (parse_literal s).

(* ----------------------------------------------------------------- *)
(** *** ['{}'.format(x)] for a float and for an int

    For a float this is [repr]: the shortest decimal string that reads
    back as the same float (the closest one when several do), printed
    with an exponent when the decimal point would stand more than 16
    places right of the first digit or 4 or more places left of it. *)

Fixpoint digits_loop (fuel : nat) (n : Z) (acc : list Z) : list Z :=
  match fuel with
  | O => acc
  | S fuel' =>
      if n <? 10 then n :: acc else digits_loop fuel' (n / 10) (n mod 10 :: acc)
  end.

(** The decimal digits of [n >= 0], most significant first. *)
Definition decimal_digits (n : Z) : list Z :=
  digits_loop (S (Z.to_nat (Z.log2 n))) n [].

Fixpoint drop_zeros (l : list Z) : list Z :=
  match l with
  | 0 :: t => drop_zeros t
  | _ => l
  end.

Definition strip_trailing_zeros (l : list Z) : list Z := rev (drop_zeros (rev l)).

(** The least [D >= D0] with [num / den < 10 ^ D]. *)
Fixpoint decpt_search (fuel : nat) (num den D : Z) : Z :=
  match fuel with
  | O => D
  | S fuel' =>
      let below := if 0 <=? D then num <? den * 10 ^ D else num * 10 ^ (- D) <? den in
      if below then D else decpt_search fuel' num den (D + 1)
  end.

Definition rounds_to (x : spec_float) (c k : Z) : bool :=
  match SFcompare (Prim2SF (round_literal (Finite false c k))) x with
  | Some Eq => true
  | _ => false
  end.

(** With [p] digits the candidates are the two neighbours [lo] and
    [lo + 1] of [num / den] scaled by [10 ^ (p - D)]; the first [p] with
    a neighbour that reads back as [x] is the answer. *)
Fixpoint shortest_loop (fuel : nat) (x : spec_float) (num den D p : Z) : Z * Z :=
  let k := D - p in
  let snum := if k <? 0 then num * 10 ^ (- k) else num in
  let sden := if k <? 0 then den else den * 10 ^ k in
  let lo := snum / sden in
  let r := snum mod sden in
  let hi := lo + 1 in
  let pick :=
    match rounds_to x lo k, rounds_to x hi k with
    | true, true =>
        match 2 * r ?= sden with
        | Lt => Some lo
        | Gt => Some hi
        | Eq => Some (if Z.even lo then lo else hi)
        end
    | true, false => Some lo
    | false, true => Some hi
    | false, false => None
    end in
  match pick, fuel with
  | Some c, _ => (c, k)
  | None, S fuel' => shortest_loop fuel' x num den D (p + 1)
  | None, O => (lo, k)
  end.

(** The digits of [m * 2 ^ e] and the position of the decimal point
    after the first [decpt] of them. *)
Definition shortest_decimal (m : positive) (e : Z) : list Z * Z :=
  let num := if e <? 0 then Zpos m else Zpos m * 2 ^ e in
  let den := if e <? 0 then 2 ^ (- e) else 1 in
  let D := decpt_search 700 num den (-330) in
  let '(c, k) := shortest_loop 17 (S754_finite false m e) num den D 1 in
  let ds := decimal_digits c in
  (strip_trailing_zeros ds, k + Z.of_nat (List.length ds)).

Definition digit_chars (ds : list Z) : str := map (fun d => d + 48) ds.
Definition zeros (n : Z) : str := repeat 48 (Z.to_nat n).
Definition pad2 (ds : list Z) : list Z :=
  match ds with
  | [d] => [0; d]
  | _ => ds
  end.

Definition format_digits (ds : list Z) (decpt : Z) : str :=
  let n := Z.of_nat (List.length ds) in
  if (decpt <=? -4) || (16 <? decpt) then
    let x := decpt - 1 in
    let mant :=
      match ds with
      | d :: (_ :: _) as t => digit_chars [d] ++ u "." ++ digit_chars t
      | _ => digit_chars ds
      end in
    mant ++ u "e" ++ (if x <? 0 then u "-" else u "+")
         ++ digit_chars (pad2 (decimal_digits (Z.abs x)))
  else if decpt <=? 0 then u "0." ++ zeros (- decpt) ++ digit_chars ds
  else if n <=? decpt then digit_chars ds ++ zeros (decpt - n) ++ u ".0"
  else digit_chars (firstn (Z.to_nat decpt) ds) ++ u "."
         ++ digit_chars (skipn (Z.to_nat decpt) ds).

(** ['{}'.format(f)] for a float [f]. *)
Definition format_float (f : float) : str :=
  match Prim2SF f with
  | S754_nan => u "nan"
  | S754_infinity s => if s then u "-inf" else u "inf"
  | S754_zero s => if s then u "-0.0" else u "0.0"
  | S754_finite s m e =>
      let (ds, decpt) := shortest_decimal m e in
      (if s then u "-" else []) ++ format_digits ds decpt
  end.

(** ['{}'.format(n)] for an int [n]. *)
Definition format_int (n : Z) : str :=
  (if n <? 0 then u "-" else []) ++ digit_chars (decimal_digits (Z.abs n)).

End Py.

(* ================================================================= *)
(** ** The serial port

    What the driver uses of [serial.Serial]: the device is a script of
    what each [read()] will return, the empty byte string standing for
    a read that timed out.  [write] and [read] on a closed port raise
    [PortNotOpenError]; [close] may be called on a closed port.

    Two things of pyserial are outside this model.  On an open port
    [write] and [read] always go through: the [SerialException] of a
    line that fails or of a device that is unplugged does not occur,
    and what is said of an open port is said of a line that works.  And
    a port has no finalizer: what pyserial does to a port when the
    object that holds it is dropped is not described, and what is said
    of a port is said of it while the object is in use. *)

Module Serial.
Import Py.

Record port := {
  incoming : nat -> bytes;  (* what the k-th [read()] returns *)
  reads : nat;              (* how many [read()] calls were made *)
  written : list bytes;     (* the arguments of [write], oldest first *)
  is_open : bool;
  closes : nat              (* how many [close()] calls were made *)
}.

(** [serial.Serial(port, baudrate, timeout=timeout)]: the port is open. *)
Definition open (device : nat -> bytes) : port :=
  {| incoming := device; reads := 0; written := []; is_open := true; closes := 0 |}.

Definition write (data : bytes) (p : port) : option port :=
  if is_open p then
    Some {| incoming := incoming p; reads := reads p;
            written := written p ++ [data];
            is_open := is_open p; closes := closes p |}
  else None.

Definition read (p : port) : option (bytes * port) :=
  if is_open p then
    Some (incoming p (reads p),
          {| incoming := incoming p; reads := S (reads p);
             written := written p;
             is_open := is_open p; closes := closes p |})
  else None.

Definition close (p : port) : port :=
  {| incoming := incoming p; reads := reads p; written := written p;
     is_open := false; closes := S (closes p) |}.

End Serial.

(* ================================================================= *)
(** ** [pykorad.py] *)

Import Py.

Definition OUTPUT_ENABLED_MASK : Z := 0x40.
Definition OVER_CURRENT_PROTECTION_ENABLED_MASK : Z := 0x20.
Definition OVER_VOLTAGE_PROTECTION_ENABLED_MASK : Z := 0x80.
Definition CC_CV_MASK : Z := 0x01.

(** What [_decode_response] returns: a [float] or a [str]. *)
Inductive decoded :=
| Number (x : float)
| Text (s : str).

(** The attributes of a [PowerSupply] object; [_id] is [None] until
    [__init__] has assigned it. *)
Record PowerSupply := {
  _serial_port : Serial.port;
  _id : option decoded
}.

Definition set_serial_port (self : PowerSupply) (p : Serial.port) : PowerSupply :=
  {| _serial_port := p; _id := _id self |}.

Definition set_id (self : PowerSupply) (v : decoded) : PowerSupply :=
  {| _serial_port := _serial_port self; _id := Some v |}.

Inductive exn :=
| AssertionError
| UnicodeDecodeError
| UnicodeEncodeError
| IndexError
| AttributeError
| PortNotOpenError.

(** How a call ends: it returns, it raises, or the fuel of a
    [while True] loop ran out before the loop was left. *)
Inductive res (A : Type) :=
| Ret (a : A) (self : PowerSupply)
| Raise (e : exn) (self : PowerSupply)
| OutOfFuel.
Arguments Ret {A} a self.
Arguments Raise {A} e self.
Arguments OutOfFuel {A}.

(** A method body: from the fuel and the object to the way it ends. *)
Definition M (A : Type) : Type := nat -> PowerSupply -> res A.

Definition ret {A} (a : A) : M A := fun _ self => Ret a self.
Definition raise {A} (e : exn) : M A := fun _ self => Raise e self.
Definition bind {A B} (m : M A) (k : A -> M B) : M B :=
  fun fuel self =>
    match m fuel self with
    | Ret a self' => k a fuel self'
    | Raise e self' => Raise e self'
    | OutOfFuel => OutOfFuel
    end.

Notation "x <- m ;; k" := (bind m (fun x => k))
  (at level 61, m at next level, right associativity).
Notation "m ;;; k" := (bind m (fun _ => k))
  (at level 61, right associativity).

(** [assert c]; asserts are active (the interpreter is not run with
    [-O]). *)
Definition py_assert (c : bool) : M unit :=
  if c then ret tt else raise AssertionError.

(** [s.encode("utf-8")]. *)
Definition encode (s : str) : M bytes :=
  match utf8_encode s with
  | Some x => ret x
  | None => raise UnicodeEncodeError
  end.

(** [self._serial_port.write(data)], [.read()] and [.close()]. *)
Definition serial_write (data : bytes) : M unit :=
  fun _ self =>
    match Serial.write data (_serial_port self) with
    | Some p => Ret tt (set_serial_port self p)
    | None => Raise PortNotOpenError self
    end.

Definition serial_read : M bytes :=
  fun _ self =>
    match Serial.read (_serial_port self) with
    | Some (x, p) => Ret x (set_serial_port self p)
    | None => Raise PortNotOpenError self
    end.

Definition serial_close : M unit :=
  fun _ self => Ret tt (set_serial_port self (Serial.close (_serial_port self))).

(** The loop of [_execute_command], with [n] iterations of fuel left:
<<
        while True:
            byte = self._serial_port.read()
            if byte:
                data.extend(byte)
            else:
                break
>> *)
Fixpoint read_loop (n : nat) (data : bytes) : M bytes :=
  match n with
  | O => fun _ _ => OutOfFuel
  | S n' =>
      byte <- serial_read ;;
      match byte with
      | _ :: _ => read_loop n' (data ++ byte)
      | [] => ret data
      end
  end.

Definition _perform_bug_workarounds (command data : bytes) : bytes :=
  if bytes_eqb command (b "ISET1?") && (Z.of_nat (List.length data) =? 6)
  then removelast data
  else data.

Definition _decode_response (response : bytes) : M decoded :=
  match float_of_bytes response with
  | Some value => ret (Number value)
  | None =>
      match utf8_decode response with
      | Some value => ret (Text value)
      | None => raise UnicodeDecodeError
      end
  end.

(** The type of what [_execute_command] returns follows its flag. *)
Definition response (decode : bool) : Type := if decode then decoded else bytes.

Definition _execute_command (command : bytes) (decode : bool) : M (response decode) :=
  serial_write command ;;;
  data <- (fun fuel => read_loop fuel [] fuel) ;;
  let data := _perform_bug_workarounds command data in
  match decode return M (response decode) with
  | true => _decode_response data
  | false => ret data
  end.

Definition set_output_voltage (voltage : float) : M unit :=
  py_assert (0 <=? voltage)%float ;;;
  py_assert (voltage <=? 30)%float ;;;
  let command_str := u "VSET1:" ++ format_float voltage in
  command <- encode command_str ;;
  _execute_command command true ;;;
  ret tt.

Definition get_requested_output_voltage : M decoded :=
  command <- encode (u "VSET1?") ;;
  _execute_command command true.

Definition get_output_voltage : M decoded :=
  command <- encode (u "VOUT1?") ;;
  _execute_command command true.

Definition set_output_current (current : float) : M unit :=
  py_assert (0 <=? current)%float ;;;
  py_assert (current <=? 5)%float ;;;
  let command_str := u "ISET1:" ++ format_float current in
  command <- encode command_str ;;
  _execute_command command true ;;;
  ret tt.

Definition get_output_current : M decoded :=
  command <- encode (u "IOUT1?") ;;
  _execute_command command true.

Definition get_requested_output_current : M decoded :=
  command <- encode (u "ISET1?") ;;
  _execute_command command true.

Definition recall_from_memory (index : Z) : M unit :=
  py_assert (1 <=? index) ;;;
  py_assert (index <=? 5) ;;;
  let command_str := u "RCL" ++ format_int index in
  command <- encode command_str ;;
  _execute_command command true ;;;
  ret tt.

Definition save_to_memory (index : Z) : M unit :=
  py_assert (1 <=? index) ;;;
  py_assert (index <=? 5) ;;;
  let command_str := u "SAV" ++ format_int index in
  command <- encode command_str ;;
  _execute_command command true ;;;
  ret tt.

Definition enable_output (enable : bool) : M unit :=
  let command_str := if enable then u "OUT1" else u "OUT0" in
  command <- encode command_str ;;
  _execute_command command true ;;;
  ret tt.

Definition enable_over_voltage_protection (enable : bool) : M unit :=
  let command_str := if enable then u "OVP1" else u "OVP0" in
  command <- encode command_str ;;
  _execute_command command true ;;;
  ret tt.

Definition enable_over_current_protection (enable : bool) : M unit :=
  let command_str := if enable then u "OCP1" else u "OCP0" in
  command <- encode command_str ;;
  _execute_command command true ;;;
  ret tt.

Definition _get_id : M decoded :=
  command <- encode (u "*IDN?") ;;
  _execute_command command true.

(** [PowerSupply(port)]: the port is opened, then [_id] is fetched.
    When [_get_id] raises, so does the constructor, and the state it
    leaves is the one of the object that was being built. *)
Definition __init__ (device : nat -> bytes) : nat -> res unit :=
  fun fuel =>
    (v <- _get_id ;; fun _ self => Ret tt (set_id self v))
      fuel {| _serial_port := Serial.open device; _id := None |}.


Definition get_identification : M decoded :=
  fun _ self =>
    match _id self with
    | Some v => Ret v self
    | None => Raise AttributeError self
    end.

(** ['{}'.format(v)] for what [_decode_response] returned. *)
Definition format_decoded (v : decoded) : str :=
  match v with
  | Number x => format_float x
  | Text s => s
  end.

Definition __str__ : M str :=
  v <- get_identification ;;
  ret (u "<PowerSupply> " ++ format_decoded v).

(** [__enter__] returns [self]. *)
Definition __enter__ : M unit := ret tt.

(** [__exit__] returns [None]: an exception of the block is not
    swallowed. *)
Definition __exit__ : M unit := serial_close.

(** [bool(data[0] & mask)]; [data[0]] raises [IndexError] on an empty
    [data]. *)
Definition first_byte_masked (data : bytes) (mask : Z) : M bool :=
  match data with
  | x :: _ => ret (negb (Z.land (code x) mask =? 0))
  | [] => raise IndexError
  end.

Definition is_output_enabled : M bool :=
  command <- encode (u "STATUS?") ;;
  data <- _execute_command command false ;;
  first_byte_masked data OUTPUT_ENABLED_MASK.

(** The loop of [_is_protection_enabled]; [counter] runs from 0 and
    [attempts] is [3 - counter], the iterations still allowed:
<<
        while counter < 3:
            data = self._execute_command(command, False)
            if len(data) == 1:
                return bool(data[0] & mask)
            counter = counter + 1
        return False
>> *)
Fixpoint protection_loop (attempts : nat) (command : bytes) (mask : Z) : M bool :=
  match attempts with
  | O => ret false
  | S attempts' =>
      data <- _execute_command command false ;;
      if Z.of_nat (List.length data) =? 1 then first_byte_masked data mask
      else protection_loop attempts' command mask
  end.

Definition _is_protection_enabled (mask : Z) : M bool :=
  command <- encode (u "STATUS?") ;;
  protection_loop 3 command mask.

Definition is_over_voltage_protection_enabled : M bool :=
  _is_protection_enabled OVER_VOLTAGE_PROTECTION_ENABLED_MASK.

Definition is_over_current_protection_enabled : M bool :=
  _is_protection_enabled OVER_CURRENT_PROTECTION_ENABLED_MASK.

(* ----------------------------------------------------------------- *)
(** *** Callers *)

(** What a method hands back to its caller. *)
Inductive value :=
| VNone
| VBool (x : bool)
| VFloat (x : float)
| VStr (s : str)
| VSelf.

Definition value_of_decoded (v : decoded) : value :=
  match v with
  | Number x => VFloat x
  | Text s => VStr s
  end.

Definition returning {A} (f : A -> value) (m : M A) : M value :=
  a <- m ;; ret (f a).

(** The methods a caller of the class can name, with their arguments. *)
Inductive call :=
| call_set_output_voltage (voltage : float)
| call_get_requested_output_voltage
| call_get_output_voltage
| call_set_output_current (current : float)
| call_get_output_current
| call_get_requested_output_current
| call_recall_from_memory (index : Z)
| call_save_to_memory (index : Z)
| call_enable_output (enable : bool)
| call_enable_over_voltage_protection (enable : bool)
| call_enable_over_current_protection (enable : bool)
| call_get_identification
| call_is_output_enabled
| call_is_over_voltage_protection_enabled
| call_is_over_current_protection_enabled
| call_str
| call_enter
| call_exit.

Definition invoke (c : call) : M value :=
  match c with
  | call_set_output_voltage v => returning (fun _ => VNone) (set_output_voltage v)
  | call_get_requested_output_voltage => returning value_of_decoded get_requested_output_voltage
  | call_get_output_voltage => returning value_of_decoded get_output_voltage
  | call_set_output_current c => returning (fun _ => VNone) (set_output_current c)
  | call_get_output_current => returning value_of_decoded get_output_current
  | call_get_requested_output_current => returning value_of_decoded get_requested_output_current
  | call_recall_from_memory i => returning (fun _ => VNone) (recall_from_memory i)
  | call_save_to_memory i => returning (fun _ => VNone) (save_to_memory i)
  | call_enable_output e => returning (fun _ => VNone) (enable_output e)
  | call_enable_over_voltage_protection e =>
      returning (fun _ => VNone) (enable_over_voltage_protection e)
  | call_enable_over_current_protection e =>
      returning (fun _ => VNone) (enable_over_current_protection e)
  | call_get_identification => returning value_of_decoded get_identification
  | call_is_output_enabled => returning VBool is_output_enabled
  | call_is_over_voltage_protection_enabled =>
      returning VBool is_over_voltage_protection_enabled
  | call_is_over_current_protection_enabled =>
      returning VBool is_over_current_protection_enabled
  | call_str => returning VStr __str__
  | call_enter => returning (fun _ => VSelf) __enter__
  | call_exit => returning (fun _ => VNone) __exit__
  end.

(** The state of the object after a call, whether it returned or raised
    (a caller may catch what it raises and go on). *)
Definition state_after {A} (r : res A) : option PowerSupply :=
  match r with
  | Ret _ self => Some self
  | Raise _ self => Some self
  | OutOfFuel => None
  end.

Definition is_exit (c : call) : bool :=
  match c with
  | call_exit => true
  | _ => false
  end.

(** [self'] is the object after some sequence of calls on [self]. *)
Inductive later : PowerSupply -> PowerSupply -> Prop :=
| later_now self : later self self
| later_call self self' self'' c fuel :
    later self self' ->
    state_after (invoke c fuel self') = Some self'' ->
    later self self''.

(** A block of calls, left at the first one that raises. *)
Fixpoint block (cs : list call) : M unit :=
  match cs with
  | [] => ret tt
  | c :: cs' => invoke c ;;; block cs'
  end.

(** [with PowerSupply(port) as ps: body]: when the constructor raises
    there is no object to leave; otherwise [__exit__] runs when the body
    is left, by its end or by an exception, and the exception goes on
    (since [__exit__] returns [None]). *)
Definition with_PowerSupply {A} (device : nat -> bytes) (body : M A) : nat -> res A :=
  fun fuel =>
    match __init__ device fuel with
    | Ret _ self =>
        match (__enter__ ;;; body) fuel self with
        | Ret a self' =>
            match __exit__ fuel self' with
            | Ret _ self'' => Ret a self''
            | Raise e self'' => Raise e self''
            | OutOfFuel => OutOfFuel
            end
        | Raise e self' =>
            match __exit__ fuel self' with
            | Ret _ self'' => Raise e self''
            | Raise e' self'' => Raise e' self''
            | OutOfFuel => OutOfFuel
            end
        | OutOfFuel => OutOfFuel
        end
    | Raise e self => Raise e self
    | OutOfFuel => OutOfFuel
    end.

(* ================================================================= *)
(** ** [examples/cli_example.py]

    The script parses its command line, builds a [PowerSupply] and calls
    its methods as the options ask.  The model starts from the parsed
    options; what [print] writes is kept line by line, also when the
    script ends by an exception. *)

Module Cli.

(** What [parser.parse_args()] returns.  [port] stands for the device
    behind the serial port of that path; an option that was not given
    is [None]. *)
Record Namespace := {
  port : nat -> bytes;
  identification : bool;
  current : option float;
  voltage : option float;
  memory : option Z;
  currentout : bool;
  voltageout : bool;
  enable : option bool
}.

(** How the script ends: [main] returns, an exception leaves it, or a
    read loop is still running when the fuel is used up. *)
Inductive ended (A : Type) :=
| Done (a : A) (stdout : list str) (power_suppy : PowerSupply)
| Uncaught (e : exn) (stdout : list str) (power_suppy : PowerSupply)
| Hung.
Arguments Done {A} a stdout power_suppy.
Arguments Uncaught {A} e stdout power_suppy.
Arguments Hung {A}.

(** A piece of the script: from the fuel, the lines printed so far and
    the object to the way it ends. *)
Definition Script (A : Type) : Type := nat -> list str -> PowerSupply -> ended A.

Definition done {A} (a : A) : Script A := fun _ out ps => Done a out ps.

Definition next {A B} (s : Script A) (k : A -> Script B) : Script B :=
  fun fuel out ps =>
    match s fuel out ps with
    | Done a out' ps' => k a fuel out' ps'
    | Uncaught e out' ps' => Uncaught e out' ps'
    | Hung => Hung
    end.

(** A method call on [power_suppy]. *)
Definition method {A} (m : M A) : Script A :=
  fun fuel out ps =>
    match m fuel ps with
    | Ret a ps' => Done a out ps'
    | Raise e ps' => Uncaught e out ps'
    | OutOfFuel => Hung
    end.

(** [print(line)]. *)
Definition print (line : str) : Script unit :=
  fun _ out ps => Done tt (out ++ [line]) ps.

(** [if flag: body]. *)
Definition when (flag : bool) (body : Script unit) : Script unit :=
  if flag then body else done tt.

(** [if o != None: body(o)]. *)
Definition given {A} (o : option A) (body : A -> Script unit) : Script unit :=
  match o with
  | Some a => body a
  | None => done tt
  end.

(** The body of [main] once [power_suppy] is built. *)
Definition main_with (args : Namespace) : Script Z :=
  next (when (identification args)
          (next (method get_identification) (fun v => print (format_decoded v))))
    (fun _ =>
  next (given (current args) (fun c => method (set_output_current c)))
    (fun _ =>
  next (given (voltage args) (fun v => method (set_output_voltage v)))
    (fun _ =>
  next (given (memory args) (fun i => method (recall_from_memory i)))
    (fun _ =>
  next (when (voltageout args)
          (next (method get_output_voltage)
             (fun v => print (u "Voltage: " ++ format_decoded v ++ u " V"))))
    (fun _ =>
  next (when (currentout args)
          (next (method get_output_current)
             (fun v => print (u "Current: " ++ format_decoded v ++ u " A"))))
    (fun _ =>
  next (given (enable args) (fun e => method (enable_output e)))
    (fun _ =>
  done 0))))))).

(** [main()], from the parsed options; its result is the exit code of
    the process. *)
Definition main (args : Namespace) : nat -> ended Z :=
  fun fuel =>
    match __init__ (port args) fuel with
    | Ret _ power_suppy => main_with args fuel [] power_suppy
    | Raise e power_suppy => Uncaught e [] power_suppy
    | OutOfFuel => Hung
    end.

(** The commands the options ask for, in the order [main] sends them. *)
Definition commands (args : Namespace) : list bytes :=
  match current args with
  | Some c => [map byte_of_Z (u "ISET1:" ++ format_float c)]
  | None => []
  end
  ++ match voltage args with
     | Some v => [map byte_of_Z (u "VSET1:" ++ format_float v)]
     | None => []
     end
  ++ match memory args with
     | Some i => [map byte_of_Z (u "RCL" ++ format_int i)]
     | None => []
     end
  ++ (if voltageout args then [b "VOUT1?"] else [])
  ++ (if currentout args then [b "IOUT1?"] else [])
  ++ match enable args with
     | Some e => [if e then b "OUT1" else b "OUT0"]
     | None => []
     end.

(** The line [main] prints for the value [v] that came back for the
    command [cmd]: one for each of the two read-outs, none for a
    setter. *)
Definition line (cmd : bytes) (v : decoded) : list str :=
  if bytes_eqb cmd (b "VOUT1?") then [u "Voltage: " ++ format_decoded v ++ u " V"]
  else if bytes_eqb cmd (b "IOUT1?") then [u "Current: " ++ format_decoded v ++ u " A"]
  else [].

End Cli.

(* ================================================================= *)
(** ** The vocabulary of the statements *)

(* ----------------------------------------------------------------- *)
(** *** Devices and replies *)

(** A device that sends the chunks of [l], one per [read()], and is
    silent afterwards. *)
Definition scripted (l : list bytes) : nat -> bytes := fun i => nth i l [].

(** A reply as [read()] hands it over, one byte per call, followed by
    the read that times out. *)
Definition bytewise (r : bytes) : list bytes := map (fun x => [x]) r ++ [[]].

(** The object as [__init__] first has it: the port open, no [_id]. *)
Definition unidentified (device : nat -> bytes) : PowerSupply :=
  {| _serial_port := Serial.open device; _id := None |}.

(** An object whose port is open on [device] and whose identity is [v]. *)
Definition connected (device : nat -> bytes) (v : decoded) : PowerSupply :=
  {| _serial_port := Serial.open device; _id := Some v |}.

(** The port [p] after [k] more reads and the writes of [ws]. *)
Definition port_after (p : Serial.port) (k : nat) (ws : list bytes) : Serial.port :=
  {| Serial.incoming := Serial.incoming p;
     Serial.reads := Serial.reads p + k;
     Serial.written := Serial.written p ++ ws;
     Serial.is_open := Serial.is_open p;
     Serial.closes := Serial.closes p |}.

(** The next [n] chunks the port [p] will deliver. *)
Definition chunks (p : Serial.port) (n : nat) : list bytes :=
  map (fun i => Serial.incoming p (Serial.reads p + i)%nat) (seq 0 n).

(** The port [p] delivers the reply [r] next: [n] non-empty chunks that
    make up [r], then an empty one. *)
Definition replies (p : Serial.port) (n : nat) (r : bytes) : Prop :=
  (forall i, (i < n)%nat -> Serial.incoming p (Serial.reads p + i)%nat <> [])
  /\ Serial.incoming p (Serial.reads p + n)%nat = []
  /\ List.concat (chunks p n) = r.

(** The port [p] delivers the replies of [rs] one after the other,
    each given with the number of chunks it comes in. *)
Fixpoint delivers (p : Serial.port) (rs : list (nat * bytes)) : Prop :=
  match rs with
  | [] => True
  | (n, r) :: rs' => replies p n r /\ delivers (port_after p (S n) []) rs'
  end.

(** The reads it takes to drain the replies of [rs]. *)
Definition reads_of (rs : list (nat * bytes)) : nat :=
  fold_right (fun nr acc => (S (fst nr) + acc)%nat) 0%nat rs.

(** A reply that is not one byte long, in fewer chunks than the fuel. *)
Definition malformed_within (fuel : nat) (nr : nat * bytes) : Prop :=
  List.length (snd nr) <> 1%nat /\ (fst nr < fuel)%nat.

(* ----------------------------------------------------------------- *)
(** *** Byte strings and strings *)

(** Nothing but ASCII white space. *)
Definition all_space (l : bytes) : Prop := Forall (fun c => is_space c = true) l.

(** A string of ASCII characters, and a list of decimal digits. *)
Definition ascii_only (s : str) : Prop := Forall (fun c => 0 <= c < 128) s.
Definition digits_only (ds : list Z) : Prop := Forall (fun d => 0 <= d < 10) ds.

(* ----------------------------------------------------------------- *)
(** *** Outcomes *)

(** The outcome of a call with its value dropped: what the caller of a
    method without [return] sees ([None]). *)
Definition dropping {A} (r : res A) : res unit :=
  match r with
  | Ret _ self => Ret tt self
  | Raise e self => Raise e self
  | OutOfFuel => OutOfFuel
  end.

(** The port was closed, by exactly one call of [close]. *)
Definition closed_once {A} (r : res A) : Prop :=
  match r with
  | Ret _ self | Raise _ self =>
      Serial.is_open (_serial_port self) = false
      /\ Serial.closes (_serial_port self) = 1%nat
  | OutOfFuel => False
  end.

(* ----------------------------------------------------------------- *)
(** *** What a call keeps *)

(** [m] relates the object before to the object after by [R], however
    it ends. *)
Definition keeps (R : PowerSupply -> PowerSupply -> Prop) {A} (m : M A) : Prop :=
  forall fuel self self', state_after (m fuel self) = Some self' -> R self self'.

Definition same_id (self self' : PowerSupply) : Prop := _id self' = _id self.

Definition same_closing (self self' : PowerSupply) : Prop :=
  Serial.is_open (_serial_port self') = Serial.is_open (_serial_port self)
  /\ Serial.closes (_serial_port self') = Serial.closes (_serial_port self).

(** Nothing was written in between. *)
Definition read_only (self self' : PowerSupply) : Prop :=
  Serial.written (_serial_port self') = Serial.written (_serial_port self).

(** Only input and output happened on the port: the device, what was
    written before and the identity are as they were. *)
Definition only_io (self self' : PowerSupply) : Prop :=
  same_id self self' /\ same_closing self self'
  /\ Serial.incoming (_serial_port self') = Serial.incoming (_serial_port self)
  /\ exists ws, Serial.written (_serial_port self')
                = Serial.written (_serial_port self) ++ ws.

(* ----------------------------------------------------------------- *)
(** *** Failures *)

(** Whatever [m] raises is one of [E]. *)
Definition may_raise (E : exn -> Prop) {A} (m : M A) : Prop :=
  forall fuel self e self', m fuel self = Raise e self' -> E e.

(** The exceptions each method can end by that are raised in
    [pykorad.py] itself, by an [assert], a [decode], an index or an
    attribute; those of the serial port come on top. *)
Definition raised_by (c : call) : list exn :=
  match c with
  | call_set_output_voltage _ | call_set_output_current _
  | call_recall_from_memory _ | call_save_to_memory _ =>
      [AssertionError; UnicodeDecodeError]
  | call_get_requested_output_voltage | call_get_output_voltage
  | call_get_output_current | call_get_requested_output_current
  | call_enable_output _ | call_enable_over_voltage_protection _
  | call_enable_over_current_protection _ =>
      [UnicodeDecodeError]
  | call_get_identification | call_str => [AttributeError]
  | call_is_output_enabled => [IndexError]
  | call_is_over_voltage_protection_enabled
  | call_is_over_current_protection_enabled
  | call_enter | call_exit => []
  end.

(** The methods that talk to the device. *)
Definition uses_port (c : call) : bool :=
  match c with
  | call_get_identification | call_str | call_enter | call_exit => false
  | _ => true
  end.

(** The command of a setter whose argument passes its asserts. *)
Definition setter_command (c : call) : option bytes :=
  match c with
  | call_set_output_voltage v =>
      if ((0 <=? v) && (v <=? 30))%float
      then Some (map byte_of_Z (u "VSET1:" ++ format_float v)) else None
  | call_set_output_current x =>
      if ((0 <=? x) && (x <=? 5))%float
      then Some (map byte_of_Z (u "ISET1:" ++ format_float x)) else None
  | call_recall_from_memory i =>
      if (1 <=? i) && (i <=? 5)
      then Some (map byte_of_Z (u "RCL" ++ format_int i)) else None
  | call_save_to_memory i =>
      if (1 <=? i) && (i <=? 5)
      then Some (map byte_of_Z (u "SAV" ++ format_int i)) else None
  | call_enable_output e => Some (if e then b "OUT1" else b "OUT0")
  | call_enable_over_voltage_protection e => Some (if e then b "OVP1" else b "OVP0")
  | call_enable_over_current_protection e => Some (if e then b "OCP1" else b "OCP0")
  | _ => None
  end.

(** The object a script ends with. *)
Definition script_state {A} (r : Cli.ended A) : option PowerSupply :=
  match r with
  | Cli.Done _ _ ps => Some ps
  | Cli.Uncaught _ _ ps => Some ps
  | Cli.Hung => None
  end.

(** [s] relates the object before to the object after by [R], however
    it ends. *)
Definition script_keeps (R : PowerSupply -> PowerSupply -> Prop) {A}
  (s : Cli.Script A) : Prop :=
  forall fuel out ps ps', script_state (s fuel out ps) = Some ps' -> R ps ps'.

(** On a closed port [m] raises at once, for the port or for an
    argument, and leaves the object as it is. *)
Definition stops_when_closed {A} (m : M A) : Prop :=
  forall fuel self,
    Serial.is_open (_serial_port self) = false ->
    m fuel self = Raise PortNotOpenError self \/ m fuel self = Raise AssertionError self.

(** The reply [r] is decoded as [v]. *)
Definition decodes_to (r : bytes) (v : decoded) : Prop :=
  forall fuel self, _decode_response r fuel self = Ret v self.

(** The commands of [log] were answered in turn: from the start the
    device delivered one reply for each, cut from the next by a pause,
    and each value of [log] is its reply decoded; [p] is the port once
    they are sent and read. *)
Definition exchange_at (device : nat -> bytes) (log : list (bytes * decoded))
  (p : Serial.port) : Prop :=
  exists rs,
    delivers (Serial.open device) rs
    /\ Forall2 (fun nr cv => decodes_to (snd nr) (snd cv)) rs log
    /\ p = port_after (Serial.open device) (reads_of rs) (map fst log).

(** The same, whatever the port has become. *)
Definition exchanged (device : nat -> bytes) (log : list (bytes * decoded)) : Prop :=
  exists rs,
    delivers (Serial.open device) rs
    /\ Forall2 (fun nr cv => decodes_to (snd nr) (snd cv)) rs log.

(* ================================================================= *)
(** ** The transaction engine *)

Lemma port_after_0 p : port_after p 0 [] = p.
Proof.
  destruct p; unfold port_after; simpl.
  now rewrite Nat.add_0_r, app_nil_r.
Qed.

Lemma port_after_after p k ws k' ws' :
  port_after (port_after p k ws) k' ws' = port_after p (k + k') (ws ++ ws').
Proof.
  unfold port_after; simpl. now rewrite Nat.add_assoc, app_assoc.
Qed.

Lemma chunks_S p n :
  chunks p (S n) = Serial.incoming p (Serial.reads p) :: chunks (port_after p 1 []) n.
Proof.
  unfold chunks. simpl. rewrite Nat.add_0_r. f_equal.
  rewrite <- seq_shift, map_map.
  apply map_ext. intros i. f_equal. lia.
Qed.

Lemma read_open p :
  Serial.is_open p = true ->
  Serial.read p = Some (Serial.incoming p (Serial.reads p), port_after p 1 []).
Proof.
  intros H. unfold Serial.read, port_after. rewrite H.
  now rewrite app_nil_r, Nat.add_1_r.
Qed.

Lemma write_open data p :
  Serial.is_open p = true ->
  Serial.write data p = Some (port_after p 0 [data]).
Proof.
  intros H. unfold Serial.write, port_after. rewrite H.
  now rewrite Nat.add_0_r.
Qed.

Lemma set_serial_port_twice self p q :
  set_serial_port (set_serial_port self p) q = set_serial_port self q.
Proof. reflexivity. Qed.

Lemma read_loop_drains n :
  forall extra data fuel self,
    Serial.is_open (_serial_port self) = true ->
    (forall i, (i < n)%nat ->
       Serial.incoming (_serial_port self) (Serial.reads (_serial_port self) + i)%nat <> []) ->
    Serial.incoming (_serial_port self) (Serial.reads (_serial_port self) + n)%nat = [] ->
    read_loop (S n + extra) data fuel self
    = Ret (data ++ List.concat (chunks (_serial_port self) n))
          (set_serial_port self (port_after (_serial_port self) (S n) [])).
Proof.
  induction n as [|n IH]; intros extra data fuel self Hopen Hne Hend.
  - simpl. unfold bind, serial_read. rewrite (read_open _ Hopen).
    rewrite Nat.add_0_r in Hend. rewrite Hend. unfold ret.
    now rewrite app_nil_r.
  - change (read_loop (S (S n) + extra)) with (read_loop (S (S n + extra))).
    cbn [read_loop]. unfold bind at 1. unfold serial_read at 1.
    rewrite (read_open _ Hopen).
    pose proof (Hne 0%nat ltac:(lia)) as H0. rewrite Nat.add_0_r in H0.
    destruct (Serial.incoming (_serial_port self) (Serial.reads (_serial_port self)))
      as [|x chunk] eqn:E; [congruence|].
    set (self1 := set_serial_port self _).
    rewrite (IH extra (data ++ x :: chunk) fuel self1).
    + rewrite chunks_S, E. simpl List.concat. rewrite <- app_assoc.
      subst self1. simpl _serial_port. rewrite set_serial_port_twice.
      rewrite port_after_after. reflexivity.
    + exact Hopen.
    + intros i Hi. subst self1. simpl.
      replace (Serial.reads (_serial_port self) + 1 + i)%nat
        with (Serial.reads (_serial_port self) + S i)%nat by lia.
      apply Hne. lia.
    + subst self1. simpl.
      replace (Serial.reads (_serial_port self) + 1 + n)%nat
        with (Serial.reads (_serial_port self) + S n)%nat by lia.
      exact Hend.
Qed.

(** As long as the device keeps sending the loop goes on: with [n]
    iterations of fuel and [n] non-empty chunks ahead it is not left. *)
Lemma read_loop_goes_on n :
  forall data fuel self,
    Serial.is_open (_serial_port self) = true ->
    (forall i, (i < n)%nat ->
       Serial.incoming (_serial_port self) (Serial.reads (_serial_port self) + i)%nat <> []) ->
    read_loop n data fuel self = OutOfFuel.
Proof.
  induction n as [|n IH]; intros data fuel self Hopen Hne; [reflexivity|].
  cbn [read_loop]. unfold bind at 1. unfold serial_read at 1.
  rewrite (read_open _ Hopen).
  pose proof (Hne 0%nat ltac:(lia)) as H0. rewrite Nat.add_0_r in H0.
  destruct (Serial.incoming (_serial_port self) (Serial.reads (_serial_port self)))
    as [|x chunk] eqn:E; [congruence|].
  apply IH; [exact Hopen|].
  intros i Hi. simpl.
  replace (Serial.reads (_serial_port self) + 1 + i)%nat
    with (Serial.reads (_serial_port self) + S i)%nat by lia.
  apply Hne. lia.
Qed.

(** One transaction on an open port whose next reply is [r]: the
    command is written once, [n + 1] reads are made, and the buffer
    handed to the workaround is [r]. *)
Lemma execute_command_replies command decode fuel self n r :
  Serial.is_open (_serial_port self) = true ->
  replies (_serial_port self) n r ->
  (n < fuel)%nat ->
  _execute_command command decode fuel self
  = match decode return M (response decode) with
    | true => _decode_response (_perform_bug_workarounds command r)
    | false => ret (_perform_bug_workarounds command r)
    end fuel (set_serial_port self (port_after (_serial_port self) (S n) [command])).
Proof.
  intros Hopen (Hne & Hend & Hr) Hfuel.
  unfold _execute_command, bind at 1. unfold serial_write.
  rewrite (write_open _ _ Hopen). unfold bind at 1.
  set (self1 := set_serial_port self _).
  replace fuel with (S n + (fuel - S n))%nat at 1 by lia.
  rewrite (read_loop_drains n (fuel - S n) [] fuel self1 Hopen);
    [ | subst self1; simpl; rewrite Nat.add_0_r; assumption .. ].
  simpl app.
  replace (List.concat (chunks (_serial_port self1) n)) with r.
  - subst self1. simpl _serial_port. rewrite set_serial_port_twice, port_after_after.
    simpl. destruct decode; reflexivity.
  - rewrite <- Hr. subst self1. unfold chunks. simpl.
    now rewrite Nat.add_0_r.
Qed.

(* ================================================================= *)
(** ** What a call leaves untouched *)

Lemma state_after_bind {A B} (m : M A) (k : A -> M B) fuel self self' :
  state_after (bind m k fuel self) = Some self' ->
  (exists a self1, m fuel self = Ret a self1 /\ state_after (k a fuel self1) = Some self')
  \/ (exists e, m fuel self = Raise e self').
Proof.
  unfold bind. destruct (m fuel self) as [a self1|e self1|] eqn:E; simpl; intros H.
  - left. now exists a, self1.
  - right. exists e. congruence.
  - discriminate.
Qed.

Section Frame.

Variable R : PowerSupply -> PowerSupply -> Prop.
Hypothesis R_refl : forall self, R self self.
Hypothesis R_trans : forall a b c, R a b -> R b c -> R a c.
Hypothesis R_write : forall self data p,
  Serial.write data (_serial_port self) = Some p -> R self (set_serial_port self p).
Hypothesis R_read : forall self x p,
  Serial.read (_serial_port self) = Some (x, p) -> R self (set_serial_port self p).

Lemma keeps_ret {A} (a : A) : keeps R (ret a).
Proof. intros fuel self self' H. injection H as <-. apply R_refl. Qed.

Lemma keeps_raise {A} e : keeps R (@raise A e).
Proof. intros fuel self self' H. injection H as <-. apply R_refl. Qed.

Lemma keeps_bind {A B} (m : M A) (k : A -> M B) :
  keeps R m -> (forall a, keeps R (k a)) -> keeps R (bind m k).
Proof.
  intros Hm Hk fuel self self' H.
  apply state_after_bind in H as [(a & self1 & E & H)|(e & E)].
  - apply R_trans with self1.
    + apply (Hm fuel). now rewrite E.
    + now apply (Hk a fuel).
  - apply (Hm fuel). now rewrite E.
Qed.

Lemma keeps_assert c : keeps R (py_assert c).
Proof. destruct c; [apply keeps_ret | apply keeps_raise]. Qed.

Lemma keeps_encode s : keeps R (encode s).
Proof. unfold encode. destruct (utf8_encode s); [apply keeps_ret | apply keeps_raise]. Qed.

Lemma keeps_write data : keeps R (serial_write data).
Proof.
  intros fuel self self'. unfold serial_write.
  destruct (Serial.write data (_serial_port self)) eqn:E; simpl; intros H;
    injection H as <-; [now apply R_write with data | apply R_refl].
Qed.

Lemma keeps_read : keeps R serial_read.
Proof.
  intros fuel self self'. unfold serial_read.
  destruct (Serial.read (_serial_port self)) as [[x p]|] eqn:E; simpl; intros H;
    injection H as <-; [now apply R_read with x | apply R_refl].
Qed.

Lemma keeps_read_loop n : forall data, keeps R (read_loop n data).
Proof.
  induction n as [|n IH]; intros data.
  - intros fuel self self' H. discriminate.
  - simpl. apply keeps_bind; [apply keeps_read|].
    intros [|x chunk]; [apply keeps_ret | apply IH].
Qed.

Lemma keeps_drain : keeps R (fun fuel => read_loop fuel [] fuel).
Proof. intros fuel. apply keeps_read_loop. Qed.

Lemma keeps_decode_response r : keeps R (_decode_response r).
Proof.
  unfold _decode_response.
  destruct (float_of_bytes r); [apply keeps_ret|].
  destruct (utf8_decode r); [apply keeps_ret | apply keeps_raise].
Qed.

(** A transaction after its write. *)
Lemma keeps_execute_rest command decode :
  keeps R (data <- (fun fuel => read_loop fuel [] fuel) ;;
           let data := _perform_bug_workarounds command data in
           match decode return M (response decode) with
           | true => _decode_response data
           | false => ret data
           end).
Proof.
  apply keeps_bind; [apply keeps_drain|]. intros data.
  destruct decode; [apply keeps_decode_response | apply keeps_ret].
Qed.

Lemma keeps_execute_command command decode : keeps R (_execute_command command decode).
Proof.
  unfold _execute_command.
  apply keeps_bind; [apply keeps_write|]. intros _.
  apply keeps_execute_rest.
Qed.

Lemma keeps_execute_decoded command :
  @keeps R decoded (_execute_command command true).
Proof. exact (keeps_execute_command command true). Qed.

Lemma keeps_execute_raw command :
  @keeps R bytes (_execute_command command false).
Proof. exact (keeps_execute_command command false). Qed.

Lemma keeps_first_byte_masked data mask : keeps R (first_byte_masked data mask).
Proof. destruct data; [apply keeps_raise | apply keeps_ret]. Qed.

Lemma keeps_protection_loop n command mask : keeps R (protection_loop n command mask).
Proof.
  induction n as [|n IH]; simpl.
  - apply keeps_ret.
  - apply keeps_bind; [apply keeps_execute_raw|]. intros data.
    destruct (Z.of_nat (List.length data) =? 1); [apply keeps_first_byte_masked | apply IH].
Qed.

Lemma keeps_get_identification : keeps R get_identification.
Proof.
  intros fuel self self'. unfold get_identification.
  destruct (_id self); simpl; intros H; injection H as <-; apply R_refl.
Qed.

Lemma keeps_get_id : keeps R _get_id.
Proof.
  unfold _get_id. apply keeps_bind; [apply keeps_encode | intros c; apply keeps_execute_decoded].
Qed.

Lemma keeps_returning {A} (f : A -> value) m : keeps R m -> keeps R (returning f m).
Proof. intros H. apply keeps_bind; [exact H | intros a; apply keeps_ret]. Qed.

Create HintDb keeps.

#[local] Hint Resolve keeps_ret keeps_raise keeps_assert keeps_encode
  keeps_execute_decoded keeps_execute_raw
  keeps_first_byte_masked keeps_protection_loop keeps_get_identification
  keeps_returning : keeps.

Ltac keeps_step :=
  repeat first
    [ solve [ auto with keeps ]
    | apply keeps_bind; [ | intros ? ] ].

(** Every method but [__exit__] is made of asserts, encodings,
    transactions and reads of [_id]. *)
Lemma keeps_invoke c : c <> call_exit -> keeps R (invoke c).
Proof.
  intros Hc. destruct c; try congruence; cbn [invoke]; apply keeps_returning;
    unfold set_output_voltage, get_requested_output_voltage, get_output_voltage,
      set_output_current, get_output_current, get_requested_output_current,
      recall_from_memory, save_to_memory, enable_output,
      enable_over_voltage_protection, enable_over_current_protection,
      is_output_enabled, is_over_voltage_protection_enabled,
      is_over_current_protection_enabled, _is_protection_enabled, __str__, __enter__;
    keeps_step.
Qed.

End Frame.

Lemma only_io_refl self : only_io self self.
Proof.
  repeat split. exists []. now rewrite app_nil_r.
Qed.

Lemma only_io_trans a b c : only_io a b -> only_io b c -> only_io a c.
Proof.
  unfold only_io, same_id, same_closing.
  intros (I1 & (O1 & C1) & D1 & ws1 & W1) (I2 & (O2 & C2) & D2 & ws2 & W2).
  repeat split; try congruence.
  exists (ws1 ++ ws2). rewrite W2, W1. now rewrite app_assoc.
Qed.

Lemma only_io_write self data p :
  Serial.write data (_serial_port self) = Some p -> only_io self (set_serial_port self p).
Proof.
  unfold Serial.write. destruct (Serial.is_open (_serial_port self)) eqn:E; [|discriminate].
  intros H. injection H as <-. repeat split; simpl; auto. now exists [data].
Qed.

Lemma only_io_read self x p :
  Serial.read (_serial_port self) = Some (x, p) -> only_io self (set_serial_port self p).
Proof.
  unfold Serial.read. destruct (Serial.is_open (_serial_port self)) eqn:E; [|discriminate].
  intros H. injection H as _ <-. repeat split; simpl; auto.
  exists []. now rewrite app_nil_r.
Qed.

(** Every method but [__exit__] does input and output only. *)
Lemma invoke_only_io c : c <> call_exit -> keeps only_io (invoke c).
Proof.
  apply keeps_invoke;
    [ exact only_io_refl | exact only_io_trans | exact only_io_write | exact only_io_read ].
Qed.

(** No method assigns [_id]. *)
Lemma invoke_same_id c : keeps same_id (invoke c).
Proof.
  destruct (is_exit c) eqn:E.
  - destruct c; try discriminate.
    intros fuel self self' H. cbn in H. injection H as <-. reflexivity.
  - intros fuel self self' H. apply (invoke_only_io c) in H; [apply H|].
    intros ->. discriminate.
Qed.

Lemma later_same_id self self' : later self self' -> _id self' = _id self.
Proof.
  induction 1 as [|self self1 self2 c fuel _ IH H].
  - reflexivity.
  - rewrite <- IH. exact (invoke_same_id c fuel _ _ H).
Qed.

Lemma block_only_io cs : ~ In call_exit cs -> keeps only_io (block cs).
Proof.
  induction cs as [|c cs IH]; intros Hcs; simpl.
  - apply keeps_ret. exact only_io_refl.
  - apply keeps_bind.
    + exact only_io_trans.
    + apply invoke_only_io. intros ->. apply Hcs. now left.
    + intros _. apply IH. intros H. apply Hcs. now right.
Qed.

(** After its write a transaction writes nothing more. *)
Lemma execute_command_written command decode fuel self self' :
  Serial.is_open (_serial_port self) = true ->
  state_after (_execute_command command decode fuel self) = Some self' ->
  Serial.written (_serial_port self') = Serial.written (_serial_port self) ++ [command].
Proof.
  intros Hopen. unfold _execute_command, bind at 1, serial_write.
  rewrite (write_open _ _ Hopen). intros H.
  apply (keeps_execute_rest read_only) in H.
  - rewrite H. reflexivity.
  - reflexivity.
  - unfold read_only. congruence.
  - intros s x p. unfold Serial.read, read_only.
    destruct (Serial.is_open (_serial_port s)); [|discriminate].
    intros E. injection E as _ <-. reflexivity.
Qed.

(* ================================================================= *)
(** ** The engine, the workaround and the decoder *)

(** C1: one call of [_execute_command] on an open port writes the
    command bytes exactly once and then reads; each read that returns at
    least one byte is appended to the buffer and the loop is left at the
    first read that returns no byte, so that the buffer is the
    concatenation of the [n] non-empty chunks read before the first
    empty one ([n + 1] reads in all).  With [n < fuel] the loop is left
    within its fuel. *)
Theorem execute_command_writes_once_then_drains
  (command : bytes) (decode : bool) (fuel : nat) (self : PowerSupply) (n : nat) :
  let p := _serial_port self in
  let data := List.concat (chunks p n) in
  Serial.is_open p = true ->
  (forall i, (i < n)%nat -> Serial.incoming p (Serial.reads p + i)%nat <> []) ->
  Serial.incoming p (Serial.reads p + n)%nat = [] ->
  (n < fuel)%nat ->
  exists self',
    _execute_command command decode fuel self
    = match decode return M (response decode) with
      | true => _decode_response (_perform_bug_workarounds command data)
      | false => ret (_perform_bug_workarounds command data)
      end fuel self'
    /\ Serial.written (_serial_port self') = Serial.written p ++ [command]
    /\ Serial.reads (_serial_port self') = (Serial.reads p + n + 1)%nat
    /\ Serial.incoming (_serial_port self') = Serial.incoming p
    /\ Serial.is_open (_serial_port self') = true
    /\ Serial.closes (_serial_port self') = Serial.closes p
    /\ _id self' = _id self.
Proof.
  intros p data Hopen Hne Hend Hfuel.
  exists (set_serial_port self (port_after p (S n) [command])).
  split.
  - apply execute_command_replies; [exact Hopen | | exact Hfuel].
    repeat split; assumption.
  - simpl. repeat split; try assumption; try reflexivity. lia.
Qed.

Lemma execute_command_writes_once_then_drains_witness :
  exists self',
    _execute_command (b "VOUT1?") true 6%nat
      (connected (scripted (bytewise (b "12.50"))) (Text (u "KORAD KA3005P")))
    = Ret (Number 12.5) self'
    /\ Serial.written (_serial_port self') = [b "VOUT1?"]
    /\ Serial.reads (_serial_port self') = 6%nat.
Proof.
  destruct (execute_command_writes_once_then_drains (b "VOUT1?") true 6%nat
              (connected (scripted (bytewise (b "12.50"))) (Text (u "KORAD KA3005P"))) 5%nat)
    as (self' & H & Hw & Hr & _).
  - reflexivity.
  - intros i Hi. do 5 (destruct i as [|i]; [discriminate|]). lia.
  - reflexivity.
  - lia.
  - exists self'. split; [|split].
    + rewrite H. vm_compute. reflexivity.
    + exact Hw.
    + exact Hr.
Defined.

(** C2: the workaround returns the first five bytes of the buffer
    exactly when the command is [b'ISET1?'] and the buffer is six bytes
    long; for any other command or length the buffer comes back as it
    is. *)
Theorem perform_bug_workarounds_exact (command data : bytes) :
  (command = b "ISET1?" /\ List.length data = 6%nat ->
   _perform_bug_workarounds command data = firstn 5 data
   /\ _perform_bug_workarounds command data <> data)
  /\ (command <> b "ISET1?" \/ List.length data <> 6%nat ->
      _perform_bug_workarounds command data = data).
Proof.
  unfold _perform_bug_workarounds, bytes_eqb. split.
  - intros [-> Hlen].
    destruct (bytes_eq_dec (b "ISET1?") (b "ISET1?")) as [_|E]; [|congruence].
    rewrite Hlen. simpl andb. cbv iota.
    rewrite removelast_firstn_len, Hlen. simpl Nat.pred. split; [reflexivity|].
    intros E. apply (f_equal (@List.length byte)) in E.
    rewrite length_firstn, Hlen in E. discriminate.
  - intros [Hc|Hlen].
    + destruct (bytes_eq_dec command (b "ISET1?")) as [E|_]; [congruence | reflexivity].
    + destruct (Z.of_nat (List.length data) =? 6) eqn:E.
      * apply Z.eqb_eq in E. lia.
      * now rewrite andb_false_r.
Qed.

Lemma perform_bug_workarounds_exact_witness :
  _perform_bug_workarounds (b "ISET1?") (b "0.1234") = b "0.123"
  /\ _perform_bug_workarounds (b "VSET1?") (b "12.500") = b "12.500"
  /\ _perform_bug_workarounds (b "ISET1?") (b "0.123") = b "0.123".
Proof.
  split; [|split].
  - exact (proj1 (proj1 (perform_bug_workarounds_exact (b "ISET1?") (b "0.1234"))
                    (conj eq_refl eq_refl))).
  - apply (proj2 (perform_bug_workarounds_exact (b "VSET1?") (b "12.500"))).
    left. discriminate.
  - apply (proj2 (perform_bug_workarounds_exact (b "ISET1?") (b "0.123"))).
    right. discriminate.
Defined.

(* ----------------------------------------------------------------- *)
(** *** White space around a float literal *)

Lemma space_not_underscore c : is_space c = true -> is_underscore c = false.
Proof.
  unfold is_space, is_underscore. intros H.
  destruct (code c =? 95) eqn:E; [|reflexivity].
  apply Z.eqb_eq in E. rewrite E in H. discriminate.
Qed.

Lemma space_not_digit c : is_space c = true -> is_digit c = false.
Proof.
  unfold is_space, is_digit. intros H.
  apply orb_true_iff in H as [H|H].
  - apply andb_true_iff in H as [_ H]. apply Z.leb_le in H.
    apply andb_false_iff. left. apply Z.leb_gt. lia.
  - apply Z.eqb_eq in H. rewrite H. reflexivity.
Qed.

(** After a byte that is neither a digit nor an underscore the scan is
    as at the start. *)
Lemma remove_underscores_after_other p s :
  is_digit p = false -> is_underscore p = false ->
  remove_underscores (Some p) s = remove_underscores None s.
Proof.
  intros Hd Hu. destruct s as [|c t]; simpl; rewrite ?Hd, ?Hu; reflexivity.
Qed.

Lemma remove_underscores_leading l :
  all_space l ->
  forall s, remove_underscores None (l ++ s)
            = option_map (app l) (remove_underscores None s).
Proof.
  induction 1 as [|c l Hc Hl IH]; intros s.
  - simpl. now destruct (remove_underscores None s).
  - simpl app. cbn [remove_underscores]. rewrite (space_not_underscore c Hc).
    simpl andb. cbv iota.
    rewrite remove_underscores_after_other
      by auto using space_not_digit, space_not_underscore.
    rewrite IH. now destruct (remove_underscores None s).
Qed.

Lemma remove_underscores_spaces t :
  all_space t ->
  forall prev,
    match prev with Some p => is_underscore p = false | None => True end ->
    remove_underscores prev t = Some t.
Proof.
  induction 1 as [|c t Hc Ht IH]; intros prev Hprev.
  - destruct prev as [p|]; simpl; [now rewrite Hprev | reflexivity].
  - cbn [remove_underscores]. rewrite (space_not_underscore c Hc).
    replace (match prev with Some p => is_underscore p | None => false end) with false
      by (destruct prev; [now rewrite Hprev | reflexivity]).
    simpl andb. cbv iota.
    rewrite (IH (Some c) (space_not_underscore c Hc)). reflexivity.
Qed.

Lemma remove_underscores_trailing t :
  all_space t ->
  forall s prev,
    remove_underscores prev (s ++ t)
    = option_map (fun x => x ++ t) (remove_underscores prev s).
Proof.
  intros Ht. induction s as [|c s IH]; intros prev.
  - simpl app. destruct prev as [p|].
    + destruct (is_underscore p) eqn:Hp.
      * simpl. rewrite Hp. destruct Ht as [|x t Hx Ht]; simpl.
        -- now rewrite Hp.
        -- rewrite (space_not_underscore x Hx), Hp, (space_not_digit x Hx). reflexivity.
      * rewrite (remove_underscores_spaces t Ht (Some p) Hp). simpl. now rewrite Hp.
    + now rewrite (remove_underscores_spaces t Ht None I).
  - simpl app. cbn [remove_underscores].
    destruct (is_underscore c).
    + destruct (match prev with Some p => is_digit p | None => false end);
        [apply IH | reflexivity].
    + destruct (match prev with Some p => is_underscore p | None => false end
                && negb (is_digit c)); [reflexivity|].
      rewrite IH. now destruct (remove_underscores (Some c) s).
Qed.

Lemma drop_while_leading l s : all_space l -> drop_while is_space (l ++ s) = drop_while is_space s.
Proof.
  induction 1 as [|c l Hc Hl IH]; simpl; [reflexivity | now rewrite Hc].
Qed.

Lemma drop_while_all l : all_space l -> drop_while is_space l = [].
Proof.
  intros H. rewrite <- (app_nil_r l). now rewrite drop_while_leading.
Qed.

Lemma drop_while_app (s t : bytes) :
  drop_while is_space (s ++ t)
  = match drop_while is_space s with
    | [] => drop_while is_space t
    | y => y ++ t
    end.
Proof.
  induction s as [|c s IH]; simpl.
  - reflexivity.
  - destruct (is_space c); [exact IH | reflexivity].
Qed.

Lemma strip_padded l s t : all_space l -> all_space t -> strip (l ++ s ++ t) = strip s.
Proof.
  intros Hl Ht. unfold strip. rewrite (drop_while_leading l _ Hl), drop_while_app.
  destruct (drop_while is_space s) as [|y ys] eqn:E.
  - now rewrite (drop_while_all t Ht).
  - rewrite rev_app_distr. rewrite drop_while_leading; [reflexivity|].
    apply Forall_rev. exact Ht.
Qed.

(** [float] of a byte string does not see the white space around it. *)
Lemma float_of_bytes_padded l s t :
  all_space l -> all_space t -> float_of_bytes (l ++ s ++ t) = float_of_bytes s.
Proof.
  intros Hl Ht. unfold float_of_bytes, parse_literal.
  rewrite (remove_underscores_leading l Hl), (remove_underscores_trailing t Ht).
  destruct (remove_underscores None s) as [s'|]; simpl; [|reflexivity].
  now rewrite (strip_padded l s' t Hl Ht).
Qed.

(* ----------------------------------------------------------------- *)
(** *** UTF-8: what decodes encodes back to the same bytes *)

Lemma code_bounds x : 0 <= code x < 256.
Proof.
  unfold code. pose proof (Byte.to_N_bounded x) as H. lia.
Qed.

Lemma byte_of_code x : byte_of_Z (code x) = x.
Proof.
  unfold byte_of_Z, code. now rewrite N2Z.id, Byte.of_to_N.
Qed.

Ltac bool_facts :=
  unfold in_range, is_cont, cont in *;
  repeat match goal with
    | H : _ && _ = true |- _ => apply andb_true_iff in H; destruct H
    | H : (_ <=? _) = true |- _ => apply Z.leb_le in H
    | H : (_ <=? _) = false |- _ => apply Z.leb_gt in H
    | H : (_ <? _) = true |- _ => apply Z.ltb_lt in H
    | H : (_ <? _) = false |- _ => apply Z.ltb_ge in H
    | H : (_ =? _) = true |- _ => apply Z.eqb_eq in H
    | H : (_ =? _) = false |- _ => apply Z.eqb_neq in H
    end.

Ltac pick_branch :=
  repeat match goal with
    | |- context [?x <? ?y] =>
        first [ replace (x <? y) with true by (symmetry; apply Z.ltb_lt; lia)
              | replace (x <? y) with false by (symmetry; apply Z.ltb_ge; lia) ]
    | |- context [?x <=? ?y] =>
        first [ replace (x <=? y) with true by (symmetry; apply Z.leb_le; lia)
              | replace (x <=? y) with false by (symmetry; apply Z.leb_gt; lia) ]
    | |- context [(?x <=? ?y) && (?z <? ?w)] =>
        replace ((x <=? y) && (z <? w)) with false
          by (symmetry; apply andb_false_iff; rewrite Z.leb_gt, Z.ltb_ge; lia)
    end; cbn [andb].

Lemma encode_char_1 b1 :
  (code b1 <? 0x80) = true -> utf8_encode_char (code b1) = Some [b1].
Proof.
  intros H. pose proof (code_bounds b1). bool_facts.
  unfold utf8_encode_char. pick_branch. now rewrite byte_of_code.
Qed.

Lemma encode_char_2 b1 b2 :
  in_range 0xC2 0xDF b1 = true -> is_cont b2 = true ->
  utf8_encode_char ((code b1 - 0xC0) * 64 + cont b2) = Some [b1; b2].
Proof.
  intros H1 H2. bool_facts. unfold utf8_encode_char. pick_branch.
  replace (0xC0 + ((code b1 - 0xC0) * 64 + (code b2 - 0x80)) / 64) with (code b1)
    by (Z.div_mod_to_equations; lia).
  replace (0x80 + ((code b1 - 0xC0) * 64 + (code b2 - 0x80)) mod 64) with (code b2)
    by (Z.div_mod_to_equations; lia).
  now rewrite !byte_of_code.
Qed.

Lemma encode_char_3 b1 b2 b3 :
  in_range 0xE0 0xEF b1 = true ->
  (if code b1 =? 0xE0 then in_range 0xA0 0xBF b2
   else if code b1 =? 0xED then in_range 0x80 0x9F b2
   else is_cont b2) && is_cont b3 = true ->
  utf8_encode_char ((code b1 - 0xE0) * 4096 + cont b2 * 64 + cont b3) = Some [b1; b2; b3].
Proof.
  intros H1 H2.
  destruct (code b1 =? 0xE0) eqn:E0; [|destruct (code b1 =? 0xED) eqn:ED];
    bool_facts; unfold utf8_encode_char; pick_branch;
    set (c := (code b1 - 0xE0) * 4096 + (code b2 - 0x80) * 64 + (code b3 - 0x80));
    replace (0xE0 + c / 4096) with (code b1) by (subst c; Z.div_mod_to_equations; lia);
    replace (0x80 + (c / 64) mod 64) with (code b2) by (subst c; Z.div_mod_to_equations; lia);
    replace (0x80 + c mod 64) with (code b3) by (subst c; Z.div_mod_to_equations; lia);
    now rewrite !byte_of_code.
Qed.

Lemma encode_char_4 b1 b2 b3 b4 :
  in_range 0xF0 0xF4 b1
  && (if code b1 =? 0xF0 then in_range 0x90 0xBF b2
      else if code b1 =? 0xF4 then in_range 0x80 0x8F b2
      else is_cont b2)
  && is_cont b3 && is_cont b4 = true ->
  utf8_encode_char ((code b1 - 0xF0) * 262144 + cont b2 * 4096 + cont b3 * 64 + cont b4)
  = Some [b1; b2; b3; b4].
Proof.
  intros H.
  destruct (code b1 =? 0xF0) eqn:E0; [|destruct (code b1 =? 0xF4) eqn:E4];
    bool_facts; unfold utf8_encode_char; pick_branch;
    set (c := (code b1 - 0xF0) * 262144 + (code b2 - 0x80) * 4096
              + (code b3 - 0x80) * 64 + (code b4 - 0x80));
    replace (0xF0 + c / 262144) with (code b1) by (subst c; Z.div_mod_to_equations; lia);
    replace (0x80 + (c / 4096) mod 64) with (code b2) by (subst c; Z.div_mod_to_equations; lia);
    replace (0x80 + (c / 64) mod 64) with (code b3) by (subst c; Z.div_mod_to_equations; lia);
    replace (0x80 + c mod 64) with (code b4) by (subst c; Z.div_mod_to_equations; lia);
    now rewrite !byte_of_code.
Qed.

Lemma encode_cons c s x y :
  utf8_encode_char c = Some x -> utf8_encode s = Some y ->
  utf8_encode (c :: s) = Some (x ++ y).
Proof. intros Hc Hs. simpl. now rewrite Hc, Hs. Qed.

Lemma utf8_decode_encode_upto n :
  forall l s, (List.length l <= n)%nat -> utf8_decode l = Some s -> utf8_encode s = Some l.
Proof.
  induction n as [|n IH]; intros l s Hlen H.
  - destruct l; [|simpl in Hlen; lia]. injection H as <-. reflexivity.
  - destruct l as [|b1 t1]; [injection H as <-; reflexivity|].
    cbn [utf8_decode] in H.
    destruct (code b1 <? 0x80) eqn:E1.
    { destruct (utf8_decode t1) as [s'|] eqn:D; [|discriminate].
      injection H as <-.
      apply (encode_cons _ _ [b1] t1); [now apply encode_char_1|].
      apply IH; [simpl in Hlen; lia | exact D]. }
    destruct t1 as [|b2 t2]; [discriminate|].
    destruct (in_range 0xC2 0xDF b1) eqn:E2.
    { destruct (is_cont b2) eqn:C2; [|discriminate].
      destruct (utf8_decode t2) as [s'|] eqn:D; [|discriminate].
      injection H as <-.
      apply (encode_cons _ _ [b1; b2] t2); [now apply encode_char_2|].
      apply IH; [simpl in Hlen; lia | exact D]. }
    destruct t2 as [|b3 t3]; [discriminate|].
    destruct (in_range 0xE0 0xEF b1) eqn:E3.
    { match type of H with (if ?c then _ else _) = _ => destruct c eqn:C3 end;
        [|discriminate].
      destruct (utf8_decode t3) as [s'|] eqn:D; [|discriminate].
      injection H as <-.
      apply (encode_cons _ _ [b1; b2; b3] t3); [now apply encode_char_3|].
      apply IH; [simpl in Hlen; lia | exact D]. }
    destruct t3 as [|b4 t4]; [discriminate|].
    match type of H with (if ?c then _ else _) = _ => destruct c eqn:C4 end;
      [|discriminate].
    destruct (utf8_decode t4) as [s'|] eqn:D; [|discriminate].
    injection H as <-.
    apply (encode_cons _ _ [b1; b2; b3; b4] t4); [now apply encode_char_4|].
    apply IH; [simpl in Hlen; lia | exact D].
Qed.

(** The string [decode] returns is the given bytes, read as UTF-8:
    encoding it gives the same bytes back. *)
Lemma utf8_decode_encode l s : utf8_decode l = Some s -> utf8_encode s = Some l.
Proof. apply (utf8_decode_encode_upto (List.length l)). lia. Qed.

(* ----------------------------------------------------------------- *)
(** *** The decoder *)

Lemma decode_response_number r x fuel self :
  float_of_bytes r = Some x -> _decode_response r fuel self = Ret (Number x) self.
Proof. intros H. unfold _decode_response. now rewrite H. Qed.

Lemma decode_response_text r s fuel self :
  float_of_bytes r = None -> utf8_decode r = Some s ->
  _decode_response r fuel self = Ret (Text s) self.
Proof. intros H D. unfold _decode_response. now rewrite H, D. Qed.

Lemma decode_response_error r fuel self :
  float_of_bytes r = None -> utf8_decode r = None ->
  _decode_response r fuel self = Raise UnicodeDecodeError self.
Proof. intros H D. unfold _decode_response. now rewrite H, D. Qed.

(** C3: a reply that reads as a float literal is returned as that
    number ([b"12.50"] as 12.5); one that does not and is valid UTF-8 is
    returned as the string it encodes, unchanged
    ([b"KORAD KA3005P"]); one that is neither makes the decoder raise
    [UnicodeDecodeError], which [_execute_command] hands on to its
    caller. *)
Theorem decode_response_number_text_or_error (r : bytes) (fuel : nat) (self : PowerSupply) :
  (forall x, float_of_bytes r = Some x ->
     _decode_response r fuel self = Ret (Number x) self)
  /\ (forall s, float_of_bytes r = None -> utf8_decode r = Some s ->
        _decode_response r fuel self = Ret (Text s) self
        /\ utf8_encode s = Some r)
  /\ (float_of_bytes r = None -> utf8_decode r = None ->
        _decode_response r fuel self = Raise UnicodeDecodeError self)
  /\ (forall command n reply,
        Serial.is_open (_serial_port self) = true ->
        replies (_serial_port self) n reply -> (n < fuel)%nat ->
        _perform_bug_workarounds command reply = r ->
        float_of_bytes r = None -> utf8_decode r = None ->
        exists self',
          _execute_command command true fuel self = Raise UnicodeDecodeError self')
  /\ _decode_response (b "12.50") fuel self = Ret (Number 12.5) self
  /\ _decode_response (b "KORAD KA3005P") fuel self
     = Ret (Text (u "KORAD KA3005P")) self
  /\ _decode_response [xff] fuel self = Raise UnicodeDecodeError self.
Proof.
  split; [|split; [|split; [|split; [|split; [|split]]]]].
  - intros x. apply decode_response_number.
  - intros s Hf Hd. split; [now apply decode_response_text | now apply utf8_decode_encode].
  - apply decode_response_error.
  - intros command n reply Hopen Hr Hfuel <- Hf Hd.
    eexists. rewrite (execute_command_replies _ true _ _ n reply Hopen Hr Hfuel).
    now apply decode_response_error.
  - apply decode_response_number. vm_compute. reflexivity.
  - apply decode_response_text; vm_compute; reflexivity.
  - apply decode_response_error; vm_compute; reflexivity.
Qed.

Lemma decode_response_number_text_or_error_witness :
  _decode_response (b "30.0") 0%nat
    (connected (scripted []) (Text (u "KORAD KA3005P")))
  = Ret (Number 30) (connected (scripted []) (Text (u "KORAD KA3005P")))
  /\ _decode_response (b "30.0 V") 0%nat
       (connected (scripted []) (Text (u "KORAD KA3005P")))
     = Ret (Text (u "30.0 V")) (connected (scripted []) (Text (u "KORAD KA3005P")))
  /\ _decode_response [x33; x30; xc0] 0%nat
       (connected (scripted []) (Text (u "KORAD KA3005P")))
     = Raise UnicodeDecodeError (connected (scripted []) (Text (u "KORAD KA3005P"))).
Proof.
  split; [|split].
  - apply (proj1 (decode_response_number_text_or_error (b "30.0") 0%nat _)).
    vm_compute. reflexivity.
  - apply (proj1 (proj2 (decode_response_number_text_or_error (b "30.0 V") 0%nat _)));
      vm_compute; reflexivity.
  - apply (proj1 (proj2 (proj2
             (decode_response_number_text_or_error [x33; x30; xc0] 0%nat _))));
      vm_compute; reflexivity.
Defined.

(** C10: whatever [float] accepts is returned as a number, and that is
    more than plain decimal digits: white space and line ends around the
    literal are dropped ([b"12.5\n"] is 12.5), and a sign, an exponent
    ([b"1e3"]), [inf] and [nan] are read as numbers, not handed back as
    strings. *)
Theorem decode_response_accepts_float_syntax (fuel : nat) (self : PowerSupply) :
  (forall r x, float_of_bytes r = Some x ->
     _decode_response r fuel self = Ret (Number x) self)
  /\ (forall l r t x, all_space l -> all_space t -> float_of_bytes r = Some x ->
        _decode_response (l ++ r ++ t) fuel self = Ret (Number x) self)
  /\ _decode_response (b "12.5" ++ [x0a]) fuel self = Ret (Number 12.5) self
  /\ _decode_response (b " 12.5" ++ [x0d; x0a]) fuel self = Ret (Number 12.5) self
  /\ _decode_response (b "+12.5") fuel self = Ret (Number 12.5) self
  /\ _decode_response (b "-12.5") fuel self = Ret (Number (-12.5)) self
  /\ _decode_response (b "1e3") fuel self = Ret (Number 1000) self
  /\ _decode_response (b "125E-1") fuel self = Ret (Number 12.5) self
  /\ _decode_response (b "inf") fuel self = Ret (Number infinity) self
  /\ _decode_response (b "-Infinity") fuel self = Ret (Number neg_infinity) self
  /\ _decode_response (b "nan") fuel self = Ret (Number nan) self
  /\ utf8_decode (b "12.5" ++ [x0a]) = Some (u "12.5" ++ [10])
  /\ utf8_decode (b "1e3") = Some (u "1e3")
  /\ utf8_decode (b "nan") = Some (u "nan").
Proof.
  split; [|split].
  - intros r x. apply decode_response_number.
  - intros l r t x Hl Ht H. apply decode_response_number.
    now rewrite float_of_bytes_padded.
  - repeat (split; [try (apply decode_response_number); vm_compute; reflexivity|]).
    vm_compute. reflexivity.
Qed.

Lemma decode_response_accepts_float_syntax_witness :
  _decode_response ([x20; x09] ++ b "-1.5e1" ++ [x0d; x0a]) 0%nat
    (connected (scripted []) (Text (u "KORAD KA3005P")))
  = Ret (Number (-15)) (connected (scripted []) (Text (u "KORAD KA3005P"))).
Proof.
  apply (proj1 (proj2 (decode_response_accepts_float_syntax 0%nat _))).
  - repeat constructor.
  - repeat constructor.
  - vm_compute. reflexivity.
Defined.

(* ================================================================= *)
(** ** The status queries *)

Lemma encode_status : encode (u "STATUS?") = ret (b "STATUS?").
Proof. reflexivity. Qed.

Lemma workaround_status r : _perform_bug_workarounds (b "STATUS?") r = r.
Proof. reflexivity. Qed.

(** What a port will deliver depends on its device and on the reads
    made, not on what was written. *)
Lemma replies_same_input p q n r :
  Serial.incoming q = Serial.incoming p -> Serial.reads q = Serial.reads p ->
  replies p n r -> replies q n r.
Proof.
  unfold replies, chunks. intros Hi Hr. now rewrite Hi, Hr.
Qed.

Lemma delivers_same_input rs :
  forall p q,
    Serial.incoming q = Serial.incoming p -> Serial.reads q = Serial.reads p ->
    delivers p rs -> delivers q rs.
Proof.
  induction rs as [|[n r] rs IH]; intros p q Hi Hr; simpl; [trivial|].
  intros [H1 H2]. split.
  - now apply (replies_same_input p).
  - apply (IH (port_after p (S n) [])); simpl; congruence.
Qed.

(** One status query on an open port whose next reply is [r]. *)
Lemma status_query fuel self n r :
  Serial.is_open (_serial_port self) = true ->
  replies (_serial_port self) n r -> (n < fuel)%nat ->
  _execute_command (b "STATUS?") false fuel self
  = Ret r (set_serial_port self (port_after (_serial_port self) (S n) [b "STATUS?"])).
Proof.
  intros Hopen Hr Hfuel.
  now rewrite (execute_command_replies _ false _ _ n r Hopen Hr Hfuel).
Qed.

Lemma protection_loop_found mask fuel bad :
  forall k self n x,
    Serial.is_open (_serial_port self) = true ->
    Forall (malformed_within fuel) bad ->
    (List.length bad < k)%nat -> (n < fuel)%nat ->
    delivers (_serial_port self) (bad ++ [(n, [x])]) ->
    protection_loop k (b "STATUS?") mask fuel self
    = Ret (negb (Z.land (code x) mask =? 0))
          (set_serial_port self
             (port_after (_serial_port self) (reads_of (bad ++ [(n, [x])]))
                (repeat (b "STATUS?") (S (List.length bad))))).
Proof.
  induction bad as [|[n0 r0] bad IH]; intros k self n x Hopen Hbad Hk Hn Hd.
  - destruct k as [|k]; [simpl in Hk; lia|].
    simpl in Hd. destruct Hd as [Hr _].
    cbn [protection_loop]. unfold bind.
    rewrite (status_query fuel self n [x] Hopen Hr Hn). simpl.
    unfold ret. now rewrite Nat.add_0_r.
  - destruct k as [|k]; [simpl in Hk; lia|].
    simpl in Hd. destruct Hd as [Hr Hd].
    inversion Hbad as [|? ? [Hlen Hn0] Hbad']; subst. simpl in Hlen, Hn0.
    cbn [protection_loop]. unfold bind at 1.
    rewrite (status_query fuel self n0 r0 Hopen Hr Hn0).
    replace (Z.of_nat (List.length r0) =? 1) with false
      by (symmetry; apply Z.eqb_neq; lia).
    rewrite (IH k _ n x); try assumption.
    + simpl _serial_port. rewrite set_serial_port_twice, port_after_after.
      reflexivity.
    + simpl in Hk. lia.
    + apply (delivers_same_input _ (port_after (_serial_port self) (S n0) []));
        [reflexivity | reflexivity | exact Hd].
Qed.

Lemma protection_loop_exhausted mask fuel bad :
  forall self,
    Serial.is_open (_serial_port self) = true ->
    Forall (malformed_within fuel) bad ->
    delivers (_serial_port self) bad ->
    protection_loop (List.length bad) (b "STATUS?") mask fuel self
    = Ret false
          (set_serial_port self
             (port_after (_serial_port self) (reads_of bad)
                (repeat (b "STATUS?") (List.length bad)))).
Proof.
  induction bad as [|[n0 r0] bad IH]; intros self Hopen Hbad Hd.
  - simpl. unfold ret. rewrite port_after_0. now destruct self.
  - simpl in Hd. destruct Hd as [Hr Hd].
    inversion Hbad as [|? ? [Hlen Hn0] Hbad']; subst. simpl in Hlen, Hn0.
    simpl List.length. cbn [protection_loop]. unfold bind at 1.
    rewrite (status_query fuel self n0 r0 Hopen Hr Hn0).
    replace (Z.of_nat (List.length r0) =? 1) with false
      by (symmetry; apply Z.eqb_neq; lia).
    rewrite IH; try assumption.
    + simpl _serial_port. rewrite set_serial_port_twice, port_after_after.
      reflexivity.
    + apply (delivers_same_input _ (port_after (_serial_port self) (S n0) []));
        [reflexivity | reflexivity | exact Hd].
Qed.

(** C4: [is_over_voltage_protection_enabled] (mask 0x80) and
    [is_over_current_protection_enabled] (mask 0x20) send the status
    query at most three times.  After [bad] replies that are not one
    byte long (fewer than three of them), a reply of one byte [x] makes
    them return at once whether [x & mask] is not zero; after three such
    replies they return [False], and raise nothing. *)
Theorem protection_queries_retry_then_default
  (query : M bool) (mask : Z) (fuel : nat) (self : PowerSupply) (bad : list (nat * bytes)) :
  let p := _serial_port self in
  (query = is_over_voltage_protection_enabled /\ mask = 0x80)
  \/ (query = is_over_current_protection_enabled /\ mask = 0x20) ->
  Serial.is_open p = true ->
  Forall (malformed_within fuel) bad ->
  (forall n x,
     (List.length bad < 3)%nat -> (n < fuel)%nat -> delivers p (bad ++ [(n, [x])]) ->
     exists self',
       query fuel self = Ret (negb (Z.land (code x) mask =? 0)) self'
       /\ Serial.written (_serial_port self')
          = Serial.written p ++ repeat (b "STATUS?") (S (List.length bad))
       /\ Serial.reads (_serial_port self')
          = (Serial.reads p + reads_of (bad ++ [(n, [x])]))%nat)
  /\ (List.length bad = 3%nat -> delivers p bad ->
      exists self',
        query fuel self = Ret false self'
        /\ Serial.written (_serial_port self')
           = Serial.written p ++ repeat (b "STATUS?") 3
        /\ Serial.reads (_serial_port self') = (Serial.reads p + reads_of bad)%nat).
Proof.
  intros p Hq Hopen Hbad.
  assert (E : query = _is_protection_enabled mask)
    by (destruct Hq as [[-> ->]|[-> ->]]; reflexivity).
  rewrite E. unfold _is_protection_enabled. rewrite encode_status.
  change (bind (ret (b "STATUS?")) (fun command => protection_loop 3 command mask) fuel self)
    with (protection_loop 3 (b "STATUS?") mask fuel self).
  split.
  - intros n x Hlen Hn Hd.
    rewrite (protection_loop_found mask fuel bad 3 self n x Hopen Hbad Hlen Hn Hd).
    eexists. split; [reflexivity|]. split; reflexivity.
  - intros Hlen Hd. rewrite <- Hlen.
    rewrite (protection_loop_exhausted mask fuel bad self Hopen Hbad Hd).
    eexists. split; [reflexivity|]. split; reflexivity.
Qed.

Ltac replies_by_computation :=
  split;
  [ let i := fresh "i" in
    let Hi := fresh "Hi" in
    intros i Hi; repeat (destruct i as [|i]; [discriminate|]); simpl in Hi; lia
  | split; reflexivity ].

Lemma protection_queries_retry_then_default_witness :
  (exists self',
     is_over_voltage_protection_enabled 3%nat
       (connected (scripted (bytewise [x80])) (Text (u "KORAD KA3005P")))
     = Ret true self'
     /\ Serial.written (_serial_port self') = [b "STATUS?"])
  /\ (exists self',
        is_over_voltage_protection_enabled 3%nat
          (connected (scripted ([[]] ++ bytewise [x00])) (Text (u "KORAD KA3005P")))
        = Ret false self'
        /\ Serial.written (_serial_port self') = [b "STATUS?"; b "STATUS?"])
  /\ (exists self',
        is_over_current_protection_enabled 3%nat
          (connected (scripted ([[]] ++ bytewise [x20; x00] ++ [[]] ++ bytewise [x20]))
             (Text (u "KORAD KA3005P")))
        = Ret false self'
        /\ Serial.written (_serial_port self') = [b "STATUS?"; b "STATUS?"; b "STATUS?"]).
Proof.
  split; [|split].
  - destruct (proj1 (protection_queries_retry_then_default
                       is_over_voltage_protection_enabled 0x80 3%nat
                       (connected (scripted (bytewise [x80])) (Text (u "KORAD KA3005P")))
                       [] (or_introl (conj eq_refl eq_refl)) eq_refl (Forall_nil _))
                1%nat x80)
      as (self' & H & Hw & _).
    + simpl. lia.
    + lia.
    + split; [replies_by_computation | exact I].
    + exists self'. split; [exact H | exact Hw].
  - destruct (proj1 (protection_queries_retry_then_default
                       is_over_voltage_protection_enabled 0x80 3%nat
                       (connected (scripted ([[]] ++ bytewise [x00])) (Text (u "KORAD KA3005P")))
                       [(0%nat, [])] (or_introl (conj eq_refl eq_refl)) eq_refl
                       ltac:(repeat apply Forall_cons; try apply Forall_nil;
                             split; simpl; lia))
                1%nat x00)
      as (self' & H & Hw & _).
    + simpl. lia.
    + lia.
    + split; [replies_by_computation | split; [replies_by_computation | exact I]].
    + exists self'. split; [exact H | exact Hw].
  - destruct (proj2 (protection_queries_retry_then_default
                       is_over_current_protection_enabled 0x20 3%nat
                       (connected
                          (scripted ([[]] ++ bytewise [x20; x00] ++ [[]] ++ bytewise [x20]))
                          (Text (u "KORAD KA3005P")))
                       [(0%nat, []); (2%nat, [x20; x00]); (0%nat, [])]
                       (or_intror (conj eq_refl eq_refl)) eq_refl
                       ltac:(repeat apply Forall_cons; try apply Forall_nil;
                             split; simpl; lia)))
      as (self' & H & Hw & _).
    + reflexivity.
    + split; [replies_by_computation |
              split; [replies_by_computation | split; [replies_by_computation | exact I]]].
    + exists self'. split; [exact H | exact Hw].
Defined.

Lemma encode_status_bind {A} (k : bytes -> M A) :
  bind (encode (u "STATUS?")) k = k (b "STATUS?").
Proof. reflexivity. Qed.

(** C5, as the code has it: [is_output_enabled] sends the status query
    once and returns whether the first byte of the reply ANDed with 0x40
    is not zero, however long the reply is; only on an empty reply does
    [data[0]] raise [IndexError]. *)
Theorem is_output_enabled_trusts_first_byte
  (fuel : nat) (self : PowerSupply) (n : nat) (r : bytes) :
  let p := _serial_port self in
  Serial.is_open p = true ->
  replies p n r ->
  (n < fuel)%nat ->
  exists self',
    is_output_enabled fuel self
    = match r with
      | x :: _ => Ret (negb (Z.land (code x) 0x40 =? 0)) self'
      | [] => Raise IndexError self'
      end
    /\ Serial.written (_serial_port self') = Serial.written p ++ [b "STATUS?"]
    /\ Serial.reads (_serial_port self') = (Serial.reads p + n + 1)%nat.
Proof.
  intros p Hopen Hr Hfuel.
  unfold is_output_enabled. rewrite encode_status_bind. unfold bind.
  rewrite (status_query fuel self n r Hopen Hr Hfuel).
  eexists. split; [|split].
  - destruct r; reflexivity.
  - reflexivity.
  - subst p. simpl. lia.
Qed.

Lemma is_output_enabled_trusts_first_byte_witness :
  (exists self',
     is_output_enabled 2%nat
       (connected (scripted (bytewise [x40])) (Text (u "KORAD KA3005P")))
     = Ret true self'
     /\ Serial.written (_serial_port self') = [b "STATUS?"])
  /\ (exists self',
        is_output_enabled 2%nat
          (connected (scripted []) (Text (u "KORAD KA3005P")))
        = Raise IndexError self'
        /\ Serial.written (_serial_port self') = [b "STATUS?"]).
Proof.
  split.
  - destruct (is_output_enabled_trusts_first_byte 2%nat
                (connected (scripted (bytewise [x40])) (Text (u "KORAD KA3005P")))
                1%nat [x40] eq_refl)
      as (self' & H & Hw & _).
    + replies_by_computation.
    + lia.
    + exists self'. split; [exact H | exact Hw].
  - destruct (is_output_enabled_trusts_first_byte 2%nat
                (connected (scripted []) (Text (u "KORAD KA3005P")))
                0%nat [] eq_refl)
      as (self' & H & Hw & _).
    + replies_by_computation.
    + lia.
    + exists self'. split; [exact H | exact Hw].
Defined.

(** C5 as stated fails: a reply of the wrong length that is not empty
    raises nothing; the answer is read off its first byte, and may be
    [False]. *)
Lemma is_output_enabled_long_reply_raises_nothing :
  replies (Serial.open (scripted (bytewise [x40; x00]))) 2 [x40; x00]
  /\ is_output_enabled 3%nat
       (connected (scripted (bytewise [x40; x00])) (Text (u "KORAD KA3005P")))
     = Ret true
         (set_serial_port
            (connected (scripted (bytewise [x40; x00])) (Text (u "KORAD KA3005P")))
            (port_after (Serial.open (scripted (bytewise [x40; x00]))) 3 [b "STATUS?"]))
  /\ replies (Serial.open (scripted (bytewise [x00; x40]))) 2 [x00; x40]
  /\ is_output_enabled 3%nat
       (connected (scripted (bytewise [x00; x40])) (Text (u "KORAD KA3005P")))
     = Ret false
         (set_serial_port
            (connected (scripted (bytewise [x00; x40])) (Text (u "KORAD KA3005P")))
            (port_after (Serial.open (scripted (bytewise [x00; x40]))) 3 [b "STATUS?"])).
Proof.
  split; [replies_by_computation|].
  split; [vm_compute; reflexivity|].
  split; [replies_by_computation|].
  vm_compute. reflexivity.
Qed.

(* ================================================================= *)
(** ** Formatting and encoding a command *)

Lemma utf8_encode_ascii s : ascii_only s -> utf8_encode s = Some (map byte_of_Z s).
Proof.
  induction 1 as [|c s Hc Hs IH]; [reflexivity|].
  simpl. rewrite IH. unfold utf8_encode_char.
  replace (c <? 0) with false by (symmetry; apply Z.ltb_ge; lia).
  replace (c <? 128) with true by (symmetry; apply Z.ltb_lt; lia).
  reflexivity.
Qed.

Lemma ascii_only_app s t : ascii_only s -> ascii_only t -> ascii_only (s ++ t).
Proof. intros Hs Ht. apply Forall_app. now split. Qed.

Lemma digits_loop_digits fuel :
  forall n acc, 0 <= n -> digits_only acc -> digits_only (digits_loop fuel n acc).
Proof.
  induction fuel as [|fuel IH]; intros n acc Hn Hacc; simpl; [exact Hacc|].
  destruct (n <? 10) eqn:E.
  - apply Z.ltb_lt in E. constructor; [lia | exact Hacc].
  - apply IH.
    + apply Z.div_pos; lia.
    + constructor; [|exact Hacc]. apply Z.mod_pos_bound. lia.
Qed.

Lemma decimal_digits_digits n : 0 <= n -> digits_only (decimal_digits n).
Proof. intros Hn. apply digits_loop_digits; [exact Hn | constructor]. Qed.

Lemma drop_zeros_digits ds : digits_only ds -> digits_only (drop_zeros ds).
Proof.
  induction 1 as [|d ds Hd Hds IH]; simpl; [constructor|].
  destruct d; [exact IH | now constructor ..].
Qed.

Lemma strip_trailing_zeros_digits ds :
  digits_only ds -> digits_only (strip_trailing_zeros ds).
Proof.
  intros H. unfold strip_trailing_zeros.
  apply Forall_rev, drop_zeros_digits, Forall_rev, H.
Qed.

Lemma digit_chars_ascii ds : digits_only ds -> ascii_only (digit_chars ds).
Proof.
  induction 1 as [|d ds Hd Hds IH]; simpl; constructor; [lia | exact IH].
Qed.

Lemma zeros_ascii n : ascii_only (zeros n).
Proof.
  unfold zeros. induction (Z.to_nat n); simpl; constructor; [lia | assumption].
Qed.

Lemma pad2_digits ds : digits_only ds -> digits_only (pad2 ds).
Proof.
  intros H. destruct ds as [|d [|d' ds]]; simpl; try exact H.
  constructor; [lia | exact H].
Qed.

Lemma ascii_only_check s :
  forallb (fun c => (0 <=? c) && (c <? 128)) s = true -> ascii_only s.
Proof.
  intros H. apply Forall_forall. intros c Hc.
  rewrite forallb_forall in H. specialize (H c Hc).
  apply andb_true_iff in H as [H1 H2].
  apply Z.leb_le in H1. apply Z.ltb_lt in H2. lia.
Qed.

Ltac ascii_literal := apply ascii_only_check; reflexivity.

Lemma firstn_digits n : forall ds, digits_only ds -> digits_only (firstn n ds).
Proof.
  induction n as [|n IH]; intros ds H; simpl; [constructor|].
  destruct H; constructor; [assumption | now apply IH].
Qed.

Lemma skipn_digits n : forall ds, digits_only ds -> digits_only (skipn n ds).
Proof.
  induction n as [|n IH]; intros ds H; simpl; [exact H|].
  destruct H; [constructor | now apply IH].
Qed.

Lemma format_digits_ascii ds decpt : digits_only ds -> ascii_only (format_digits ds decpt).
Proof.
  intros H. unfold format_digits.
  destruct ((decpt <=? -4) || (16 <? decpt)).
  - apply ascii_only_app; [|apply ascii_only_app; [|apply ascii_only_app]].
    + destruct ds as [|d [|d' ds']].
      * constructor.
      * now apply digit_chars_ascii.
      * inversion H; subst.
        apply ascii_only_app; [|apply ascii_only_app].
        -- apply digit_chars_ascii. constructor; [assumption | constructor].
        -- ascii_literal.
        -- now apply digit_chars_ascii.
    + ascii_literal.
    + destruct (decpt - 1 <? 0); ascii_literal.
    + apply digit_chars_ascii, pad2_digits, decimal_digits_digits, Z.abs_nonneg.
  - destruct (decpt <=? 0); [|destruct (_ <=? decpt)].
    + apply ascii_only_app; [ascii_literal|].
      apply ascii_only_app; [apply zeros_ascii | now apply digit_chars_ascii].
    + apply ascii_only_app; [now apply digit_chars_ascii|].
      apply ascii_only_app; [apply zeros_ascii | ascii_literal].
    + apply ascii_only_app; [apply digit_chars_ascii; now apply firstn_digits|].
      apply ascii_only_app; [ascii_literal|].
      apply digit_chars_ascii. now apply skipn_digits.
Qed.

Lemma shortest_loop_nonneg fuel x num den D :
  0 <= num -> 0 <= den ->
  forall p, 0 <= fst (shortest_loop fuel x num den D p).
Proof.
  intros Hnum Hden. induction fuel as [|fuel IH]; intros p; cbn [shortest_loop];
    cbv zeta;
    set (k := D - p);
    set (snum := if k <? 0 then num * 10 ^ (- k) else num);
    set (sden := if k <? 0 then den else den * 10 ^ k);
    assert (Hlo : 0 <= snum / sden)
      by (apply Z_div_nonneg_nonneg; subst snum sden; destruct (k <? 0);
          try assumption; apply Z.mul_nonneg_nonneg; try assumption;
          apply Z.pow_nonneg; lia);
    destruct (rounds_to x (snum / sden) k), (rounds_to x (snum / sden + 1) k);
    try destruct (2 * (snum mod sden) ?= sden); try destruct (Z.even (snum / sden));
    simpl; try lia; apply IH.
Qed.

Lemma shortest_decimal_digits m e : digits_only (fst (shortest_decimal m e)).
Proof.
  unfold shortest_decimal.
  set (num := if e <? 0 then Z.pos m else Z.pos m * 2 ^ e).
  set (den := if e <? 0 then 2 ^ (- e) else 1).
  assert (Hnum : 0 <= num)
    by (subst num; destruct (e <? 0); [lia|];
        apply Z.mul_nonneg_nonneg; [lia | apply Z.pow_nonneg; lia]).
  assert (Hden : 0 <= den)
    by (subst den; destruct (e <? 0); [apply Z.pow_nonneg|]; lia).
  pose proof (shortest_loop_nonneg 17 (S754_finite false m e) num den
                (decpt_search 700 num den (-330)) Hnum Hden 1) as H.
  destruct (shortest_loop 17 _ num den _ 1) as [c k]. simpl in H. simpl.
  now apply strip_trailing_zeros_digits, decimal_digits_digits.
Qed.

(** What a float is formatted to is ASCII. *)
Lemma format_float_ascii f : ascii_only (format_float f).
Proof.
  unfold format_float. destruct (Prim2SF f) as [s|s| |s m e].
  - destruct s; ascii_literal.
  - destruct s; ascii_literal.
  - ascii_literal.
  - pose proof (shortest_decimal_digits m e) as H.
    destruct (shortest_decimal m e) as [ds decpt]. simpl in H.
    apply ascii_only_app; [destruct s; [ascii_literal | constructor]|].
    now apply format_digits_ascii.
Qed.

Lemma format_int_ascii n : ascii_only (format_int n).
Proof.
  unfold format_int. apply ascii_only_app.
  - destruct (n <? 0); [ascii_literal | constructor].
  - apply digit_chars_ascii, decimal_digits_digits, Z.abs_nonneg.
Qed.

(** Encoding an ASCII command string never fails. *)
Lemma encode_ascii s : ascii_only s -> encode s = ret (map byte_of_Z s).
Proof. intros H. unfold encode. now rewrite utf8_encode_ascii. Qed.

(* ================================================================= *)
(** ** The command wrappers *)

Lemma read_loop_raises n :
  forall data fuel self e self',
    read_loop n data fuel self = Raise e self' -> e = PortNotOpenError.
Proof.
  induction n as [|n IH]; intros data fuel self e self'; simpl; [discriminate|].
  unfold bind, serial_read.
  destruct (Serial.read (_serial_port self)) as [[x p]|].
  - destruct x; [discriminate | apply IH].
  - congruence.
Qed.

(** A transaction raises for a closed port or for a reply that cannot
    be decoded, and for nothing else. *)
Lemma execute_command_raises command decode fuel self e self' :
  _execute_command command decode fuel self = Raise e self' ->
  e = PortNotOpenError \/ e = UnicodeDecodeError.
Proof.
  unfold _execute_command, bind, serial_write.
  destruct (Serial.write command (_serial_port self)); [|left; congruence].
  destruct (read_loop fuel [] fuel _) as [data s1|e1 s1|] eqn:E; [| |discriminate].
  - destruct decode; [|discriminate].
    unfold _decode_response.
    destruct (float_of_bytes _); [discriminate|].
    destruct (utf8_decode _); [discriminate|].
    intros H. right. unfold raise in H. congruence.
  - intros H. apply read_loop_raises in E. left. congruence.
Qed.

(** A setter whose argument passed its asserts: the command is encoded,
    one transaction is made and its result is dropped. *)
Lemma set_output_voltage_in_range voltage :
  ((0 <=? voltage) && (voltage <=? 30))%float = true ->
  set_output_voltage voltage
  = (_execute_command (map byte_of_Z (u "VSET1:" ++ format_float voltage)) true ;;;
     ret tt).
Proof.
  intros H. apply andb_true_iff in H as [H1 H2].
  unfold set_output_voltage. rewrite H1, H2. cbv zeta.
  rewrite encode_ascii; [reflexivity|].
  apply ascii_only_app; [ascii_literal | apply format_float_ascii].
Qed.

Lemma set_output_voltage_out_of_range voltage fuel self :
  ((0 <=? voltage) && (voltage <=? 30))%float = false ->
  set_output_voltage voltage fuel self = Raise AssertionError self.
Proof.
  intros H. unfold set_output_voltage.
  destruct (0 <=? voltage)%float; [|reflexivity].
  simpl in H. rewrite H. reflexivity.
Qed.

(** The value of a method without [return] is dropped. *)
Lemma dropping_bind {A} (m : M A) fuel self :
  (m ;;; ret tt) fuel self = dropping (m fuel self).
Proof. unfold bind, dropping. now destruct (m fuel self). Qed.

(** Only the query [ISET1?] has its reply cut. *)
Lemma not_iset_query (cmd : bytes) :
  cmd <> b "ISET1?" -> forall r, _perform_bug_workarounds cmd r = r.
Proof.
  intros H r. unfold _perform_bug_workarounds, bytes_eqb.
  destruct (bytes_eq_dec cmd (b "ISET1?")); [contradiction | reflexivity].
Qed.

(** C6: [set_output_voltage] raises [AssertionError], with nothing
    written to the port, exactly when the voltage is outside
    [0.0, 30.0]; inside, bounds included, the command goes out: the call
    is one transaction with [VSET1:] and the voltage, and on an open
    port whose reply ends within the fuel it comes back, with the
    command written once.  -0.1 and 30.1 are outside, 0.0 and 30.0
    inside. *)
Theorem set_output_voltage_checks_range_first
  (voltage : float) (fuel : nat) (self : PowerSupply) :
  let inside := ((0 <=? voltage) && (voltage <=? 30))%float in
  let command := map byte_of_Z (u "VSET1:" ++ format_float voltage) in
  (inside = false <-> set_output_voltage voltage fuel self = Raise AssertionError self)
  /\ (inside = true ->
      (forall self', set_output_voltage voltage fuel self <> Raise AssertionError self')
      /\ (Serial.is_open (_serial_port self) = true ->
          forall self',
            state_after (set_output_voltage voltage fuel self) = Some self' ->
            Serial.written (_serial_port self')
            = Serial.written (_serial_port self) ++ [command])
      /\ set_output_voltage voltage fuel self
         = dropping (_execute_command command true fuel self)
      /\ (forall n r,
            Serial.is_open (_serial_port self) = true ->
            replies (_serial_port self) n r ->
            (n < fuel)%nat ->
            set_output_voltage voltage fuel self
            = match float_of_bytes r, utf8_decode r with
              | None, None =>
                  Raise UnicodeDecodeError
                    (set_serial_port self (port_after (_serial_port self) (S n) [command]))
              | _, _ =>
                  Ret tt
                    (set_serial_port self (port_after (_serial_port self) (S n) [command]))
              end))
  /\ ((0 <=? -0.1) && (-0.1 <=? 30))%float = false
  /\ ((0 <=? 30.1) && (30.1 <=? 30))%float = false
  /\ ((0 <=? 0) && (0 <=? 30))%float = true
  /\ ((0 <=? 30) && (30 <=? 30))%float = true
  /\ map byte_of_Z (u "VSET1:" ++ format_float 0) = b "VSET1:0.0"
  /\ map byte_of_Z (u "VSET1:" ++ format_float 30) = b "VSET1:30.0".
Proof.
  intros inside command.
  assert (Hin : inside = true ->
                forall self', set_output_voltage voltage fuel self <> Raise AssertionError self').
  { intros Hi self' E. rewrite (set_output_voltage_in_range voltage Hi) in E.
    unfold bind in E.
    destruct (_execute_command _ true fuel self) as [a s1|e s1|] eqn:Ex;
      [discriminate | | discriminate].
    apply execute_command_raises in Ex. destruct Ex; congruence. }
  assert (Hdrop : inside = true ->
                  set_output_voltage voltage fuel self
                  = dropping (_execute_command command true fuel self)).
  { intros Hi. rewrite (set_output_voltage_in_range voltage Hi). apply dropping_bind. }
  split; [|split].
  - split.
    + apply set_output_voltage_out_of_range.
    + intros E. destruct inside eqn:Hi; [|reflexivity].
      exfalso. exact (Hin eq_refl self E).
  - intros Hi. split; [exact (Hin Hi)|]. split; [|split; [exact (Hdrop Hi)|]].
    + intros Hopen self' H. rewrite (set_output_voltage_in_range voltage Hi) in H.
      apply state_after_bind in H as [(a & s1 & E & H)|(e & E)].
      * injection H as <-. apply (f_equal state_after) in E.
        exact (execute_command_written _ true fuel self s1 Hopen E).
      * apply (f_equal state_after) in E.
        exact (execute_command_written _ true fuel self self' Hopen E).
    + intros n r Hopen Hr Hfuel. rewrite (Hdrop Hi).
      pose proof (execute_command_replies command true fuel self n r Hopen Hr Hfuel) as E.
      cbv iota in E. rewrite E.
      assert (Hc : command <> b "ISET1?").
      { subst command. simpl. rewrite !byte_of_code. discriminate. }
      rewrite (not_iset_query command Hc).
      unfold _decode_response.
      destruct (float_of_bytes r); [reflexivity|].
      destruct (utf8_decode r); reflexivity.
  - repeat split; vm_compute; reflexivity.
Qed.

Lemma set_output_voltage_checks_range_first_witness :
  (forall self',
     state_after (set_output_voltage 12.5 1%nat
                    (connected (scripted []) (Text (u "KORAD KA3005P")))) = Some self' ->
     Serial.written (_serial_port self') = [b "VSET1:12.5"])
  /\ set_output_voltage 30.5 1%nat (connected (scripted []) (Text (u "KORAD KA3005P")))
     = Raise AssertionError (connected (scripted []) (Text (u "KORAD KA3005P")))
  /\ set_output_voltage 30 1%nat (connected (scripted []) (Text (u "KORAD KA3005P")))
     = Ret tt
         (set_serial_port (connected (scripted []) (Text (u "KORAD KA3005P")))
            (port_after (Serial.open (scripted [])) 1 [b "VSET1:30.0"]))
  /\ set_output_voltage 0 3%nat (connected (scripted [[x4f]; [x4b]]) (Text (u "KORAD KA3005P")))
     = Ret tt
         (set_serial_port (connected (scripted [[x4f]; [x4b]]) (Text (u "KORAD KA3005P")))
            (port_after (Serial.open (scripted [[x4f]; [x4b]])) 3 [b "VSET1:0.0"])).
Proof.
  split; [|split; [|split]].
  - exact (proj1 (proj2 (proj1 (proj2 (set_output_voltage_checks_range_first 12.5 1%nat
                                  (connected (scripted []) (Text (u "KORAD KA3005P")))))
                    eq_refl)) eq_refl).
  - exact (proj1 (proj1 (set_output_voltage_checks_range_first 30.5 1%nat
                           (connected (scripted []) (Text (u "KORAD KA3005P")))))
             eq_refl).
  - rewrite (proj2 (proj2 (proj2 (proj1 (proj2 (set_output_voltage_checks_range_first
                                                   30 1%nat
                                                   (connected (scripted [])
                                                      (Text (u "KORAD KA3005P")))))
                                     eq_refl)))
               0%nat [] eq_refl);
      [vm_compute; reflexivity | replies_by_computation | lia].
  - rewrite (proj2 (proj2 (proj2 (proj1 (proj2 (set_output_voltage_checks_range_first
                                                   0 3%nat
                                                   (connected (scripted [[x4f]; [x4b]])
                                                      (Text (u "KORAD KA3005P")))))
                                     eq_refl)))
               2%nat [x4f; x4b] eq_refl);
      [vm_compute; reflexivity | replies_by_computation | lia].
Defined.

(* ----------------------------------------------------------------- *)
(** *** What the wrappers return *)

Lemma set_output_current_in_range current :
  ((0 <=? current) && (current <=? 5))%float = true ->
  set_output_current current
  = (_execute_command (map byte_of_Z (u "ISET1:" ++ format_float current)) true ;;;
     ret tt).
Proof.
  intros H. apply andb_true_iff in H as [H1 H2].
  unfold set_output_current. rewrite H1, H2. cbv zeta.
  rewrite encode_ascii; [reflexivity|].
  apply ascii_only_app; [ascii_literal | apply format_float_ascii].
Qed.

Lemma recall_from_memory_in_range index :
  1 <= index <= 5 ->
  recall_from_memory index
  = (_execute_command (map byte_of_Z (u "RCL" ++ format_int index)) true ;;; ret tt).
Proof.
  intros [H1 H2]. unfold recall_from_memory.
  apply Z.leb_le in H1, H2. rewrite H1, H2. cbv zeta.
  rewrite encode_ascii; [reflexivity|].
  apply ascii_only_app; [ascii_literal | apply format_int_ascii].
Qed.

Lemma save_to_memory_in_range index :
  1 <= index <= 5 ->
  save_to_memory index
  = (_execute_command (map byte_of_Z (u "SAV" ++ format_int index)) true ;;; ret tt).
Proof.
  intros [H1 H2]. unfold save_to_memory.
  apply Z.leb_le in H1, H2. rewrite H1, H2. cbv zeta.
  rewrite encode_ascii; [reflexivity|].
  apply ascii_only_app; [ascii_literal | apply format_int_ascii].
Qed.

(** C8, as the code has it: every wrapper formats its command and makes
    one transaction with it.  A getter returns what the transaction
    returned.  A setter, its argument in range, drops that result: it
    has no [return], so that its caller gets [None]. *)
Theorem wrappers_make_one_transaction (fuel : nat) (self : PowerSupply) :
  (get_requested_output_voltage fuel self = _execute_command (b "VSET1?") true fuel self
   /\ get_output_voltage fuel self = _execute_command (b "VOUT1?") true fuel self
   /\ get_output_current fuel self = _execute_command (b "IOUT1?") true fuel self
   /\ get_requested_output_current fuel self
      = _execute_command (b "ISET1?") true fuel self)
  /\ (forall voltage,
        ((0 <=? voltage) && (voltage <=? 30))%float = true ->
        set_output_voltage voltage fuel self
        = dropping (_execute_command
                      (map byte_of_Z (u "VSET1:" ++ format_float voltage)) true fuel self))
  /\ (forall current,
        ((0 <=? current) && (current <=? 5))%float = true ->
        set_output_current current fuel self
        = dropping (_execute_command
                      (map byte_of_Z (u "ISET1:" ++ format_float current)) true fuel self))
  /\ (forall index,
        1 <= index <= 5 ->
        recall_from_memory index fuel self
        = dropping (_execute_command
                      (map byte_of_Z (u "RCL" ++ format_int index)) true fuel self)
        /\ save_to_memory index fuel self
           = dropping (_execute_command
                         (map byte_of_Z (u "SAV" ++ format_int index)) true fuel self))
  /\ (forall enable,
        enable_output enable fuel self
        = dropping (_execute_command (if enable then b "OUT1" else b "OUT0") true fuel self)
        /\ enable_over_voltage_protection enable fuel self
           = dropping (_execute_command
                         (if enable then b "OVP1" else b "OVP0") true fuel self)
        /\ enable_over_current_protection enable fuel self
           = dropping (_execute_command
                         (if enable then b "OCP1" else b "OCP0") true fuel self))
  /\ map byte_of_Z (u "VSET1:" ++ format_float 12.5) = b "VSET1:12.5"
  /\ map byte_of_Z (u "ISET1:" ++ format_float 0.1) = b "ISET1:0.1"
  /\ map byte_of_Z (u "RCL" ++ format_int 3) = b "RCL3".
Proof.
  split; [|split; [|split; [|split; [|split]]]].
  - repeat split; reflexivity.
  - intros voltage H. rewrite (set_output_voltage_in_range voltage H).
    apply dropping_bind.
  - intros current H. rewrite (set_output_current_in_range current H).
    apply dropping_bind.
  - intros index H. split.
    + rewrite (recall_from_memory_in_range index H). apply dropping_bind.
    + rewrite (save_to_memory_in_range index H). apply dropping_bind.
  - intros enable. destruct enable; repeat split; apply dropping_bind.
  - repeat split; vm_compute; reflexivity.
Qed.

Lemma wrappers_make_one_transaction_witness :
  get_output_voltage 6%nat
    (connected (scripted (bytewise (b "12.50"))) (Text (u "KORAD KA3005P")))
  = _execute_command (b "VOUT1?") true 6%nat
      (connected (scripted (bytewise (b "12.50"))) (Text (u "KORAD KA3005P")))
  /\ set_output_voltage 12.5 1%nat (connected (scripted []) (Text (u "KORAD KA3005P")))
     = dropping (_execute_command (b "VSET1:12.5") true 1%nat
                   (connected (scripted []) (Text (u "KORAD KA3005P"))))
  /\ recall_from_memory 3 1%nat (connected (scripted []) (Text (u "KORAD KA3005P")))
     = dropping (_execute_command (b "RCL3") true 1%nat
                   (connected (scripted []) (Text (u "KORAD KA3005P")))).
Proof.
  split; [|split].
  - exact (proj1 (proj2 (proj1 (wrappers_make_one_transaction 6%nat
                                  (connected (scripted (bytewise (b "12.50")))
                                     (Text (u "KORAD KA3005P"))))))).
  - exact (proj1 (proj2 (wrappers_make_one_transaction 1%nat
                           (connected (scripted []) (Text (u "KORAD KA3005P")))))
             12.5%float eq_refl).
  - exact (proj1 (proj1 (proj2 (proj2 (proj2
             (wrappers_make_one_transaction 1%nat
                (connected (scripted []) (Text (u "KORAD KA3005P")))))))
             3 ltac:(lia))).
Defined.

(** C8 as stated fails for the setters: the transaction of
    [set_output_voltage(12.5)] returns a string (the empty one, from a
    device that sends nothing back; ["OK"] from one that sends that), and
    the setter returns [None]. *)
Lemma set_output_voltage_returns_none :
  invoke (call_set_output_voltage 12.5) 1%nat
    (connected (scripted []) (Text (u "KORAD KA3005P")))
  = Ret VNone
      (set_serial_port (connected (scripted []) (Text (u "KORAD KA3005P")))
         (port_after (Serial.open (scripted [])) 1 [b "VSET1:12.5"]))
  /\ returning value_of_decoded (_execute_command (b "VSET1:12.5") true) 1%nat
       (connected (scripted []) (Text (u "KORAD KA3005P")))
     = Ret (VStr [])
         (set_serial_port (connected (scripted []) (Text (u "KORAD KA3005P")))
            (port_after (Serial.open (scripted [])) 1 [b "VSET1:12.5"]))
  /\ invoke (call_set_output_voltage 12.5) 3%nat
       (connected (scripted (bytewise (b "OK"))) (Text (u "KORAD KA3005P")))
     = Ret VNone
         (set_serial_port (connected (scripted (bytewise (b "OK"))) (Text (u "KORAD KA3005P")))
            (port_after (Serial.open (scripted (bytewise (b "OK")))) 3 [b "VSET1:12.5"]))
  /\ returning value_of_decoded (_execute_command (b "VSET1:12.5") true) 3%nat
       (connected (scripted (bytewise (b "OK"))) (Text (u "KORAD KA3005P")))
     = Ret (VStr (u "OK"))
         (set_serial_port (connected (scripted (bytewise (b "OK"))) (Text (u "KORAD KA3005P")))
            (port_after (Serial.open (scripted (bytewise (b "OK")))) 3 [b "VSET1:12.5"])).
Proof.
  repeat split; vm_compute; reflexivity.
Qed.

(* ================================================================= *)
(** ** The identity and the life of the connection *)

Lemma get_id_only_io : keeps only_io _get_id.
Proof.
  apply keeps_get_id;
    [ exact only_io_refl | exact only_io_trans | exact only_io_write | exact only_io_read ].
Qed.

Lemma get_id_transaction : _get_id = _execute_command (b "*IDN?") true.
Proof. reflexivity. Qed.

(** A constructor that returns has made the one transaction of
    [_get_id] on the fresh port and stored its result. *)
Lemma init_returns device fuel self :
  __init__ device fuel = Ret tt self ->
  exists v s1,
    _execute_command (b "*IDN?") true fuel (unidentified device) = Ret v s1
    /\ self = set_id s1 v.
Proof.
  unfold __init__, bind. fold (unidentified device). rewrite get_id_transaction.
  destruct (_execute_command (b "*IDN?") true fuel (unidentified device))
    as [v s1|e s1|]; intros H; try discriminate.
  injection H as <-. now exists v, s1.
Qed.

(** C7: the constructor makes exactly one transaction, [*IDN?], and
    stores what it returned in [_id]; no call made afterwards changes
    [_id], and [get_identification] returns it, whenever called, leaving
    the object and its port as they are (nothing is read or
    written). *)
Theorem identity_fetched_once_then_cached
  (device : nat -> bytes) (fuel : nat) (self : PowerSupply) :
  __init__ device fuel = Ret tt self ->
  Serial.written (_serial_port self) = [b "*IDN?"]
  /\ exists v,
       (exists s1, _get_id fuel (unidentified device) = Ret v s1 /\ self = set_id s1 v)
       /\ _id self = Some v
       /\ forall self',
            later self self' ->
            _id self' = Some v
            /\ forall fuel', get_identification fuel' self' = Ret v self'.
Proof.
  intros H. apply init_returns in H as (v & s1 & E & ->).
  split.
  - simpl. apply (f_equal state_after) in E.
    exact (execute_command_written _ true fuel (unidentified device) s1 eq_refl E).
  - exists v. split; [|split].
    + exists s1. split; [exact E | reflexivity].
    + reflexivity.
    + intros self' Hl. apply later_same_id in Hl. simpl in Hl.
      split; [exact Hl|].
      intros fuel'. unfold get_identification. now rewrite Hl.
Qed.

Lemma identity_fetched_once_then_cached_witness :
  exists self,
    __init__ (scripted (bytewise (b "KORAD KA3005P"))) 14%nat = Ret tt self
    /\ Serial.written (_serial_port self) = [b "*IDN?"]
    /\ _id self = Some (Text (u "KORAD KA3005P"))
    /\ forall self',
         later self self' ->
         get_identification 0%nat self' = Ret (Text (u "KORAD KA3005P")) self'.
Proof.
  pose (self :=
          set_id
            (set_serial_port (unidentified (scripted (bytewise (b "KORAD KA3005P"))))
               (port_after (Serial.open (scripted (bytewise (b "KORAD KA3005P"))))
                  14 [b "*IDN?"]))
            (Text (u "KORAD KA3005P"))).
  assert (H : __init__ (scripted (bytewise (b "KORAD KA3005P"))) 14%nat = Ret tt self)
    by (vm_compute; reflexivity).
  exists self. split; [exact H|].
  destruct (identity_fetched_once_then_cached _ _ _ H) as (Hw & v & _ & Hv & Hl).
  split; [exact Hw|]. split; [reflexivity|].
  intros self' Hs. destruct (Hl self' Hs) as [_ Hg].
  assert (Ev : v = Text (u "KORAD KA3005P")) by (simpl in Hv; congruence).
  rewrite <- Ev. apply Hg.
Defined.

(* ----------------------------------------------------------------- *)
(** *** Closing the port *)

(** A constructor that returns leaves the port open and never closed. *)
Lemma init_leaves_port_open device fuel self :
  __init__ device fuel = Ret tt self ->
  Serial.is_open (_serial_port self) = true
  /\ Serial.closes (_serial_port self) = 0%nat.
Proof.
  intros H. apply init_returns in H as (v & s1 & E & ->).
  rewrite <- get_id_transaction in E. apply (f_equal state_after) in E.
  apply get_id_only_io in E. destruct E as (_ & (Ho & Hc) & _).
  simpl. now rewrite Ho, Hc.
Qed.

Lemma exit_closes fuel self :
  __exit__ fuel self = Ret tt (set_serial_port self (Serial.close (_serial_port self))).
Proof. reflexivity. Qed.

(** X16: a [with] block over a connection whose construction succeeded
    closes the port exactly once, when the block is left, be it by its
    end or by an exception (which goes on to the caller), as long as the
    block itself does not call [__exit__]. *)
Theorem with_block_closes_port_once
  (device : nat -> bytes) (fuel : nat) (self : PowerSupply) (cs : list call) :
  __init__ device fuel = Ret tt self ->
  ~ In call_exit cs ->
  block cs fuel self <> OutOfFuel ->
  closed_once (with_PowerSupply device (block cs) fuel)
  /\ (forall e self',
        block cs fuel self = Raise e self' ->
        with_PowerSupply device (block cs) fuel
        = Raise e (set_serial_port self' (Serial.close (_serial_port self'))))
  /\ (forall self',
        block cs fuel self = Ret tt self' ->
        with_PowerSupply device (block cs) fuel
        = Ret tt (set_serial_port self' (Serial.close (_serial_port self')))).
Proof.
  intros Hinit Hcs Hfuel.
  destruct (init_leaves_port_open _ _ _ Hinit) as [Hopen Hclosed].
  assert (Hwith : with_PowerSupply device (block cs) fuel
                  = match block cs fuel self with
                    | Ret a s => Ret a (set_serial_port s (Serial.close (_serial_port s)))
                    | Raise e s => Raise e (set_serial_port s (Serial.close (_serial_port s)))
                    | OutOfFuel => OutOfFuel
                    end).
  { unfold with_PowerSupply. rewrite Hinit.
    change ((__enter__ ;;; block cs) fuel self) with (block cs fuel self).
    destruct (block cs fuel self); reflexivity. }
  rewrite Hwith.
  pose proof (block_only_io cs Hcs fuel self) as Hio.
  destruct (block cs fuel self) as [[] s|e s|]; [| |congruence].
  - destruct (Hio s eq_refl) as (_ & (Ho & Hc) & _).
    split; [|split].
    + simpl. split; [reflexivity | congruence].
    + discriminate.
    + intros self' E. now injection E as <-.
  - destruct (Hio s eq_refl) as (_ & (Ho & Hc) & _).
    split; [|split].
    + simpl. split; [reflexivity | congruence].
    + intros e' self' E. now injection E as <- <-.
    + discriminate.
Qed.

Lemma with_block_closes_port_once_witness :
  closed_once
    (with_PowerSupply
       (scripted (bytewise (b "KORAD KA3005P") ++ bytewise (b "12.50")))
       (block [call_get_output_voltage; call_set_output_voltage 31]) 14%nat).
Proof.
  pose (self :=
          set_id
            (set_serial_port
               (unidentified (scripted (bytewise (b "KORAD KA3005P") ++ bytewise (b "12.50"))))
               (port_after
                  (Serial.open (scripted (bytewise (b "KORAD KA3005P") ++ bytewise (b "12.50"))))
                  14 [b "*IDN?"]))
            (Text (u "KORAD KA3005P"))).
  assert (H : __init__ (scripted (bytewise (b "KORAD KA3005P") ++ bytewise (b "12.50")))
                14%nat = Ret tt self)
    by (vm_compute; reflexivity).
  assert (Hcs : ~ In call_exit [call_get_output_voltage; call_set_output_voltage 31])
    by (intros [E|[E|[]]]; discriminate).
  assert (Hfuel : block [call_get_output_voltage; call_set_output_voltage 31] 14%nat self
                  <> OutOfFuel)
    by (vm_compute; discriminate).
  exact (proj1 (with_block_closes_port_once _ _ _ _ H Hcs Hfuel)).
Defined.

(* ================================================================= *)
(** ** Beyond the claims: how the engine and the methods fail *)

Lemma read_loop_open_raises_nothing n :
  forall data fuel self e self',
    Serial.is_open (_serial_port self) = true ->
    read_loop n data fuel self <> Raise e self'.
Proof.
  induction n as [|n IH]; intros data fuel self e self' Hopen; [discriminate|].
  cbn [read_loop]. unfold bind at 1. unfold serial_read at 1.
  rewrite (read_open _ Hopen).
  destruct (Serial.incoming (_serial_port self) (Serial.reads (_serial_port self)));
    [discriminate|].
  apply IH. exact Hopen.
Qed.

(** On a closed port a transaction ends at its write. *)
Lemma execute_command_closed command decode fuel self :
  Serial.is_open (_serial_port self) = false ->
  _execute_command command decode fuel self = Raise PortNotOpenError self.
Proof.
  intros H. unfold _execute_command, bind, serial_write, Serial.write. now rewrite H.
Qed.

(** A transaction that returns was made on an open port, which it
    leaves open with the command added to what was written. *)
Lemma execute_command_returns command decode fuel self v self' :
  _execute_command command decode fuel self = Ret v self' ->
  Serial.is_open (_serial_port self) = true
  /\ Serial.is_open (_serial_port self') = true
  /\ Serial.written (_serial_port self') = Serial.written (_serial_port self) ++ [command].
Proof.
  intros E. destruct (Serial.is_open (_serial_port self)) eqn:Hopen.
  - apply (f_equal state_after) in E. split; [reflexivity|]. split.
    + pose proof E as E'.
      apply (keeps_execute_command only_io only_io_refl only_io_trans
               only_io_write only_io_read) in E'.
      destruct E' as (_ & (Ho & _) & _). congruence.
    + exact (execute_command_written command decode fuel self self' Hopen E).
  - rewrite (execute_command_closed command decode fuel self Hopen) in E. discriminate.
Qed.

(** How a transaction fails, on a line that works: for a closed port,
    before anything is written, or for a reply that cannot be
    decoded. *)
Lemma execute_command_fails
  (command : bytes) (decode : bool) (fuel : nat) (self : PowerSupply)
  (e : exn) (self' : PowerSupply) :
  _execute_command command decode fuel self = Raise e self' ->
  (e = PortNotOpenError
   /\ Serial.is_open (_serial_port self) = false
   /\ self' = self)
  \/ (e = UnicodeDecodeError
      /\ decode = true
      /\ Serial.is_open (_serial_port self) = true
      /\ Serial.written (_serial_port self')
         = Serial.written (_serial_port self) ++ [command]).
Proof.
  intros E. destruct (Serial.is_open (_serial_port self)) eqn:Hopen.
  - right.
    pose proof (execute_command_written command decode fuel self self' Hopen
                  (f_equal state_after E)) as Hw.
    revert E. unfold _execute_command, bind at 1, serial_write.
    rewrite (write_open _ _ Hopen). unfold bind.
    destruct (read_loop fuel [] fuel _) as [data s1|e1 s1|] eqn:El.
    + destruct decode; [|discriminate].
      unfold _decode_response.
      destruct (float_of_bytes _); [discriminate|].
      destruct (utf8_decode _); [discriminate|].
      intros E. unfold raise in E. injection E as <- _. auto.
    + exfalso. revert El. apply read_loop_open_raises_nothing. exact Hopen.
    + discriminate.
  - left. rewrite (execute_command_closed command decode fuel self Hopen) in E.
    injection E as <- <-. auto.
Qed.

Section MayRaise.

Variable E : exn -> Prop.

Lemma may_raise_ret {A} (a : A) : may_raise E (ret a).
Proof. intros fuel self e self' H. discriminate. Qed.

Lemma may_raise_raise {A} e : E e -> may_raise E (@raise A e).
Proof. intros He fuel self e' self' H. injection H as <- _. exact He. Qed.

Lemma may_raise_bind {A B} (m : M A) (k : A -> M B) :
  may_raise E m -> (forall a, may_raise E (k a)) -> may_raise E (bind m k).
Proof.
  intros Hm Hk fuel self e self'. unfold bind.
  destruct (m fuel self) as [a s1|e1 s1|] eqn:Em; intros H.
  - exact (Hk a fuel s1 e self' H).
  - injection H as <- _. exact (Hm fuel self e1 s1 Em).
  - discriminate.
Qed.

Lemma may_raise_assert c : E AssertionError -> may_raise E (py_assert c).
Proof. intros H. destruct c; [apply may_raise_ret | now apply may_raise_raise]. Qed.

Lemma may_raise_encode s : ascii_only s -> may_raise E (encode s).
Proof. intros H. rewrite (encode_ascii s H). apply may_raise_ret. Qed.

Lemma may_raise_execute_decoded command :
  E PortNotOpenError -> E UnicodeDecodeError ->
  @may_raise E decoded (_execute_command command true).
Proof.
  intros H1 H2 fuel self e self' H.
  destruct (execute_command_raises command true fuel self e self' H) as [-> | ->];
    assumption.
Qed.

Lemma may_raise_execute_raw command :
  E PortNotOpenError -> @may_raise E bytes (_execute_command command false).
Proof.
  intros H1 fuel self e self' H.
  destruct (execute_command_fails command false fuel self e self' H)
    as [(-> & _)|(_ & Hd & _)]; [assumption | discriminate].
Qed.

Lemma may_raise_first_byte_masked data mask :
  E IndexError -> may_raise E (first_byte_masked data mask).
Proof. intros H. destruct data; [now apply may_raise_raise | apply may_raise_ret]. Qed.

(** In the retry loop [data[0]] is only reached with [len(data) == 1]. *)
Lemma may_raise_protection_loop n command mask :
  E PortNotOpenError -> may_raise E (protection_loop n command mask).
Proof.
  intros H. induction n as [|n IH]; simpl; [apply may_raise_ret|].
  apply may_raise_bind; [now apply may_raise_execute_raw|]. intros data.
  destruct (Z.of_nat (List.length data) =? 1) eqn:El; [|exact IH].
  destruct data; [discriminate | apply may_raise_ret].
Qed.

Lemma may_raise_get_identification : E AttributeError -> may_raise E get_identification.
Proof.
  intros H fuel self e self'. unfold get_identification.
  destruct (_id self); intros H'; [discriminate|]. injection H' as <- _. exact H.
Qed.

Lemma may_raise_returning {A} (f : A -> value) m :
  may_raise E m -> may_raise E (returning f m).
Proof. intros H. apply may_raise_bind; [exact H | intros a; apply may_raise_ret]. Qed.

End MayRaise.

Ltac may_raise_step :=
  repeat first
    [ apply may_raise_ret
    | apply may_raise_assert; simpl; tauto
    | apply may_raise_encode; first
        [ ascii_literal
        | apply ascii_only_app; [ascii_literal | first [apply format_float_ascii
                                                       | apply format_int_ascii]] ]
    | apply may_raise_execute_decoded; simpl; tauto
    | apply may_raise_execute_raw; simpl; tauto
    | apply may_raise_first_byte_masked; simpl; tauto
    | apply may_raise_protection_loop; simpl; tauto
    | apply may_raise_get_identification; simpl; tauto
    | apply may_raise_bind; [ | intros ? ] ].

(** X2: what each method raises of its own.  An exception that ends a
    method and is not the serial port's was raised in [pykorad.py]:
    [UnicodeDecodeError] by a getter or a setter, for a reply that
    cannot be decoded; [AssertionError] by a range-checked setter only;
    [IndexError] by [is_output_enabled] only, for an empty reply;
    [AttributeError] by [get_identification] and [__str__] only.  The
    protection queries raise none of these, whatever the device sends:
    they index a reply only when it has one byte, and decode nothing.
    No method raises [UnicodeEncodeError]: every command is ASCII. *)
Theorem methods_raise_only
  (c : call) (fuel : nat) (self : PowerSupply) (e : exn) (self' : PowerSupply) :
  invoke c fuel self = Raise e self' ->
  e <> PortNotOpenError ->
  In e (raised_by c).
Proof.
  intros H Hport.
  assert (Hall : may_raise (fun e => e = PortNotOpenError \/ In e (raised_by c)) (invoke c)).
  { clear. destruct c; cbn [invoke raised_by]; apply may_raise_returning;
      unfold set_output_voltage, get_requested_output_voltage, get_output_voltage,
        set_output_current, get_output_current, get_requested_output_current,
        recall_from_memory, save_to_memory, enable_output,
        enable_over_voltage_protection, enable_over_current_protection,
        is_output_enabled, is_over_voltage_protection_enabled,
        is_over_current_protection_enabled, _is_protection_enabled, __str__, __enter__,
        __exit__;
      try (destruct enable); may_raise_step.
    intros fuel self e self' H. discriminate. }
  destruct (Hall fuel self e self' H) as [->|Hin]; [contradiction | exact Hin].
Qed.

Lemma methods_raise_only_witness :
  In IndexError (raised_by call_is_output_enabled)
  /\ In AssertionError (raised_by (call_save_to_memory 6))
  /\ In UnicodeDecodeError (raised_by (call_enable_output true)).
Proof.
  split; [|split].
  - apply (methods_raise_only call_is_output_enabled 1%nat
             (connected (scripted []) (Text (u "KORAD KA3005P"))) IndexError
             (set_serial_port (connected (scripted []) (Text (u "KORAD KA3005P")))
                (port_after (Serial.open (scripted [])) 1 [b "STATUS?"])));
      [vm_compute; reflexivity | discriminate].
  - apply (methods_raise_only (call_save_to_memory 6) 1%nat
             (connected (scripted []) (Text (u "KORAD KA3005P"))) AssertionError
             (connected (scripted []) (Text (u "KORAD KA3005P"))));
      [vm_compute; reflexivity | discriminate].
  - apply (methods_raise_only (call_enable_output true) 2%nat
             (connected (scripted [[xff]]) (Text (u "KORAD KA3005P"))) UnicodeDecodeError
             (set_serial_port (connected (scripted [[xff]]) (Text (u "KORAD KA3005P")))
                (port_after (Serial.open (scripted [[xff]])) 2 [b "OUT1"])));
      [vm_compute; reflexivity | discriminate].
Defined.

(* ----------------------------------------------------------------- *)
(** *** The protection queries on any device *)

Lemma protection_loop_open mask fuel k :
  forall self,
    Serial.is_open (_serial_port self) = true ->
    match protection_loop k (b "STATUS?") mask fuel self with
    | Ret _ self' =>
        exists j, (j <= k)%nat /\ (k <> 0%nat -> (1 <= j)%nat)
                  /\ Serial.is_open (_serial_port self') = true
                  /\ Serial.written (_serial_port self')
                     = Serial.written (_serial_port self) ++ repeat (b "STATUS?") j
    | Raise _ _ => False
    | OutOfFuel => True
    end.
Proof.
  induction k as [|k IH]; intros self Hopen.
  - simpl. exists 0%nat. simpl. rewrite app_nil_r.
    repeat split; [lia | congruence | exact Hopen].
  - cbn [protection_loop]. unfold bind at 1.
    destruct (_execute_command (b "STATUS?") false fuel self) as [data s1|e s1|] eqn:E.
    + destruct (execute_command_returns _ false fuel self data s1 E) as (_ & Ho1 & Hw1).
      destruct (Z.of_nat (List.length data) =? 1) eqn:El.
      * destruct data as [|x data]; [discriminate|]. simpl.
        exists 1%nat. simpl. repeat split; auto; lia.
      * specialize (IH s1 Ho1).
        destruct (protection_loop k (b "STATUS?") mask fuel s1) as [r s2|e s2|];
          [|exact IH|exact I].
        destruct IH as (j & Hj & _ & Ho2 & Hw2).
        exists (S j). repeat split; try lia; [exact Ho2|].
        rewrite Hw2, Hw1, <- app_assoc. reflexivity.
    + destruct (execute_command_fails _ false fuel self e s1 E)
        as [(_ & Hc & _)|(_ & Hd & _)]; congruence.
    + exact I.
Qed.

(** X3: a protection query that returns has written [STATUS?] once,
    twice or three times, and nothing else, whatever the device sent
    and however its replies were cut. *)
Theorem protection_queries_ask_at_most_thrice
  (query : M bool) (fuel : nat) (self : PowerSupply) (answer : bool)
  (self' : PowerSupply) :
  query = is_over_voltage_protection_enabled
  \/ query = is_over_current_protection_enabled ->
  query fuel self = Ret answer self' ->
  exists j, (1 <= j <= 3)%nat
            /\ Serial.written (_serial_port self')
               = Serial.written (_serial_port self) ++ repeat (b "STATUS?") j.
Proof.
  intros Hq.
  assert (E : exists mask, query = _is_protection_enabled mask)
    by (destruct Hq as [-> | ->]; eexists; reflexivity).
  destruct E as [mask ->].
  unfold _is_protection_enabled. rewrite encode_status_bind.
  destruct (Serial.is_open (_serial_port self)) eqn:Hopen.
  - pose proof (protection_loop_open mask fuel 3 self Hopen) as H.
    destruct (protection_loop 3 (b "STATUS?") mask fuel self) as [r s|e s|];
      try discriminate.
    destruct H as (j & Hj & Hj' & _ & Hw).
    intros Er. injection Er as _ <-.
    exists j. split; [|exact Hw]. specialize (Hj' ltac:(discriminate)). lia.
  - cbn [protection_loop]. unfold bind at 1.
    rewrite (execute_command_closed (b "STATUS?") false fuel self Hopen).
    discriminate.
Qed.

Lemma protection_queries_ask_at_most_thrice_witness :
  exists j, (1 <= j <= 3)%nat
            /\ Serial.written
                 (_serial_port
                    (set_serial_port
                       (connected (scripted ([[x01; x02]; []] ++ bytewise [xa0]))
                          (Text (u "KORAD KA3005P")))
                       (port_after
                          (Serial.open (scripted ([[x01; x02]; []] ++ bytewise [xa0])))
                          4 [b "STATUS?"; b "STATUS?"])))
               = [] ++ repeat (b "STATUS?") j.
Proof.
  apply (protection_queries_ask_at_most_thrice is_over_current_protection_enabled 4%nat
           (connected (scripted ([[x01; x02]; []] ++ bytewise [xa0]))
              (Text (u "KORAD KA3005P")))
           true _ (or_intror eq_refl)).
  vm_compute. reflexivity.
Defined.

(* ----------------------------------------------------------------- *)
(** *** What the methods leave as it is *)

(** X4: a method call, whether it returns or raises, never changes
    [_id] or the device behind the port, and never takes back what was
    written.  Only [__exit__] closes the port, and it does nothing else;
    every other method leaves the port open or closed as it found it. *)
Theorem methods_leave_the_rest
  (c : call) (fuel : nat) (self self' : PowerSupply) :
  state_after (invoke c fuel self) = Some self' ->
  _id self' = _id self
  /\ Serial.incoming (_serial_port self') = Serial.incoming (_serial_port self)
  /\ (exists ws, Serial.written (_serial_port self')
                 = Serial.written (_serial_port self) ++ ws)
  /\ (if is_exit c
      then Serial.is_open (_serial_port self') = false
           /\ Serial.closes (_serial_port self') = S (Serial.closes (_serial_port self))
           /\ Serial.written (_serial_port self') = Serial.written (_serial_port self)
           /\ Serial.reads (_serial_port self') = Serial.reads (_serial_port self)
      else Serial.is_open (_serial_port self') = Serial.is_open (_serial_port self)
           /\ Serial.closes (_serial_port self') = Serial.closes (_serial_port self)).
Proof.
  intros H. destruct (is_exit c) eqn:Ec.
  - destruct c; try discriminate. cbn in H. injection H as <-. simpl.
    repeat split. exists []. now rewrite app_nil_r.
  - apply (invoke_only_io c) in H; [|intros ->; discriminate].
    destruct H as (Hi & Hc & Hd & Hw). repeat split; try assumption; apply Hc.
Qed.

Lemma methods_leave_the_rest_witness :
  _id (set_serial_port (connected (scripted (bytewise (b "12.50"))) (Text (u "KORAD KA3005P")))
         (port_after (Serial.open (scripted (bytewise (b "12.50")))) 6 [b "VOUT1?"]))
  = _id (connected (scripted (bytewise (b "12.50"))) (Text (u "KORAD KA3005P"))).
Proof.
  apply (methods_leave_the_rest call_get_output_voltage 6%nat
           (connected (scripted (bytewise (b "12.50"))) (Text (u "KORAD KA3005P")))).
  vm_compute. reflexivity.
Defined.

(* ----------------------------------------------------------------- *)
(** *** After the port was closed *)

Lemma bind_ret_l {A B} (a : A) (k : A -> M B) : bind (ret a) k = k a.
Proof. reflexivity. Qed.

Lemma stops_execute_command command decode :
  stops_when_closed (_execute_command command decode).
Proof. intros fuel self H. left. now apply execute_command_closed. Qed.

Lemma stops_bind {A B} (m : M A) (k : A -> M B) :
  stops_when_closed m -> stops_when_closed (bind m k).
Proof.
  intros Hm fuel self H. unfold bind.
  destruct (Hm fuel self H) as [-> | ->]; auto.
Qed.

Lemma stops_after_assert {A} c (m : M A) :
  stops_when_closed m -> stops_when_closed (py_assert c ;;; m).
Proof.
  intros Hm fuel self H. destruct c.
  - exact (Hm fuel self H).
  - right. reflexivity.
Qed.

Lemma stops_after_encode {A} s (k : bytes -> M A) :
  ascii_only s -> (forall x, stops_when_closed (k x)) ->
  stops_when_closed (bind (encode s) k).
Proof. intros Hs Hk. rewrite (encode_ascii s Hs), bind_ret_l. apply Hk. Qed.

Lemma stops_returning {A} (f : A -> value) m :
  stops_when_closed m -> stops_when_closed (returning f m).
Proof. intros H. now apply stops_bind. Qed.

Ltac stops_step :=
  repeat first
    [ apply stops_after_assert
    | apply stops_after_encode;
        [ first [ ascii_literal
                | apply ascii_only_app;
                    [ascii_literal | first [apply format_float_ascii
                                           | apply format_int_ascii]] ]
        | intros ? ]
    | apply stops_bind; first [ apply (stops_execute_command _ true)
                              | apply (stops_execute_command _ false) ] ].

Lemma stops_invoke c : uses_port c = true -> stops_when_closed (invoke c).
Proof.
  intros Hc. destruct c; try discriminate; cbn [invoke]; apply stops_returning;
    unfold set_output_voltage, get_requested_output_voltage, get_output_voltage,
      set_output_current, get_output_current, get_requested_output_current,
      recall_from_memory, save_to_memory, enable_output,
      enable_over_voltage_protection, enable_over_current_protection,
      is_output_enabled, is_over_voltage_protection_enabled,
      is_over_current_protection_enabled, _is_protection_enabled;
    try (destruct enable); stops_step;
    first [ apply (stops_execute_command _ true)
          | cbn [protection_loop]; apply stops_bind;
            apply (stops_execute_command _ false) ].
Qed.

(** X5: once the port is closed (after [__exit__]), a method that talks
    to the device raises before anything is written or read, with
    [PortNotOpenError], or with [AssertionError] when its argument is
    out of range; no method but a further [__exit__] changes the object.
    [get_identification] still returns the cached identity. *)
Theorem closed_port_stops_every_command
  (c : call) (fuel : nat) (self : PowerSupply) :
  Serial.is_open (_serial_port self) = false ->
  is_exit c = false ->
  (forall self', state_after (invoke c fuel self) = Some self' -> self' = self)
  /\ (uses_port c = true ->
      invoke c fuel self = Raise PortNotOpenError self
      \/ invoke c fuel self = Raise AssertionError self)
  /\ (forall v, _id self = Some v ->
        get_identification fuel self = Ret v self).
Proof.
  intros Hclosed Hc. split; [|split].
  - destruct (uses_port c) eqn:Hu.
    + intros self' H. destruct (stops_invoke c Hu fuel self Hclosed) as [E|E];
        rewrite E in H; injection H as <-; reflexivity.
    + destruct c; try discriminate; intros self' H;
        unfold invoke, returning, __str__, bind, get_identification, __enter__, ret in H;
        destruct (_id self); simpl in H; now injection H as <-.
  - intros Hu. exact (stops_invoke c Hu fuel self Hclosed).
  - intros v Hv. unfold get_identification. now rewrite Hv.
Qed.

Lemma closed_port_stops_every_command_witness :
  invoke call_get_output_voltage 1%nat
    (set_serial_port (connected (scripted []) (Text (u "KORAD KA3005P")))
       (Serial.close (Serial.open (scripted []))))
  = Raise PortNotOpenError
      (set_serial_port (connected (scripted []) (Text (u "KORAD KA3005P")))
         (Serial.close (Serial.open (scripted []))))
  \/ invoke call_get_output_voltage 1%nat
       (set_serial_port (connected (scripted []) (Text (u "KORAD KA3005P")))
          (Serial.close (Serial.open (scripted []))))
     = Raise AssertionError
         (set_serial_port (connected (scripted []) (Text (u "KORAD KA3005P")))
            (Serial.close (Serial.open (scripted [])))).
Proof.
  exact (proj1 (proj2 (closed_port_stops_every_command call_get_output_voltage 1%nat
                         (set_serial_port (connected (scripted []) (Text (u "KORAD KA3005P")))
                            (Serial.close (Serial.open (scripted []))))
                         eq_refl eq_refl)) eq_refl).
Defined.

(* ================================================================= *)
(** ** Beyond the claims: the other wrappers *)

Lemma dropped_transaction_raises command fuel self e self' :
  dropping (_execute_command command true fuel self) = Raise e self' ->
  e <> AssertionError.
Proof.
  destruct (_execute_command command true fuel self) as [a s1|e1 s1|] eqn:E;
    try discriminate.
  intros H. injection H as <- _.
  destruct (execute_command_raises command true fuel self e1 s1 E); congruence.
Qed.

Lemma set_output_current_out_of_range current fuel self :
  ((0 <=? current) && (current <=? 5))%float = false ->
  set_output_current current fuel self = Raise AssertionError self.
Proof.
  intros H. unfold set_output_current.
  destruct (0 <=? current)%float; [|reflexivity].
  simpl in H. rewrite H. reflexivity.
Qed.

(** X6: [set_output_current] raises [AssertionError], with the object
    and the port as they were, exactly when the current is outside
    [0.0, 5.0] (a NaN is outside); inside, bounds included, it makes one
    transaction with [ISET1:] followed by the current as Python prints
    it, and drops the result. *)
Theorem set_output_current_checks_range_first
  (current : float) (fuel : nat) (self : PowerSupply) :
  let inside := ((0 <=? current) && (current <=? 5))%float in
  let command := map byte_of_Z (u "ISET1:" ++ format_float current) in
  (inside = false <-> set_output_current current fuel self = Raise AssertionError self)
  /\ (inside = true ->
      set_output_current current fuel self
      = dropping (_execute_command command true fuel self))
  /\ ((0 <=? nan) && (nan <=? 5))%float = false
  /\ ((0 <=? 5) && (5 <=? 5))%float = true
  /\ ((0 <=? 5.1) && (5.1 <=? 5))%float = false
  /\ map byte_of_Z (u "ISET1:" ++ format_float 5) = b "ISET1:5.0"
  /\ map byte_of_Z (u "ISET1:" ++ format_float 0.25) = b "ISET1:0.25".
Proof.
  intros inside command.
  assert (Hin : inside = true ->
                set_output_current current fuel self
                = dropping (_execute_command command true fuel self)).
  { intros Hi. rewrite (set_output_current_in_range current Hi). apply dropping_bind. }
  split; [|split].
  - split.
    + apply set_output_current_out_of_range.
    + intros E. destruct inside eqn:Hi; [|reflexivity].
      rewrite (Hin eq_refl) in E. apply dropped_transaction_raises in E. congruence.
  - exact Hin.
  - repeat split; vm_compute; reflexivity.
Qed.

Lemma set_output_current_checks_range_first_witness :
  set_output_current 2.5 1%nat (connected (scripted []) (Text (u "KORAD KA3005P")))
  = dropping (_execute_command (b "ISET1:2.5") true 1%nat
                (connected (scripted []) (Text (u "KORAD KA3005P"))))
  /\ set_output_current (-1) 1%nat (connected (scripted []) (Text (u "KORAD KA3005P")))
     = Raise AssertionError (connected (scripted []) (Text (u "KORAD KA3005P"))).
Proof.
  split.
  - exact (proj1 (proj2 (set_output_current_checks_range_first 2.5 1%nat
                           (connected (scripted []) (Text (u "KORAD KA3005P")))))
             eq_refl).
  - exact (proj1 (proj1 (set_output_current_checks_range_first (-1) 1%nat
                           (connected (scripted []) (Text (u "KORAD KA3005P")))))
             eq_refl).
Defined.

Lemma format_int_slot index : 1 <= index <= 5 -> format_int index = [48 + index].
Proof.
  intros H.
  assert (E : index = 1 \/ index = 2 \/ index = 3 \/ index = 4 \/ index = 5) by lia.
  destruct E as [->|[->|[->|[->| ->]]]]; reflexivity.
Qed.

Lemma memory_out_of_range index (m : M unit) fuel self :
  (1 <=? index) && (index <=? 5) = false ->
  (py_assert (1 <=? index) ;;; py_assert (index <=? 5) ;;; m) fuel self
  = Raise AssertionError self.
Proof.
  intros H. destruct (1 <=? index); [|reflexivity].
  simpl in H. rewrite H. reflexivity.
Qed.

(** X7: [recall_from_memory] and [save_to_memory] raise
    [AssertionError], with nothing written, exactly when the index is
    outside 1..5; inside, the command is the four bytes [RCL] or [SAV]
    and the digit of the index, sent in one transaction whose result is
    dropped. *)
Theorem memory_slot_checked_first (index : Z) (fuel : nat) (self : PowerSupply) :
  let inside := (1 <=? index) && (index <=? 5) in
  (inside = false <-> recall_from_memory index fuel self = Raise AssertionError self)
  /\ (inside = false <-> save_to_memory index fuel self = Raise AssertionError self)
  /\ (inside = true ->
      recall_from_memory index fuel self
      = dropping (_execute_command (b "RCL" ++ [byte_of_Z (48 + index)]) true fuel self)
      /\ save_to_memory index fuel self
         = dropping (_execute_command (b "SAV" ++ [byte_of_Z (48 + index)]) true fuel self)).
Proof.
  intros inside.
  assert (Hin : inside = true ->
      recall_from_memory index fuel self
      = dropping (_execute_command (b "RCL" ++ [byte_of_Z (48 + index)]) true fuel self)
      /\ save_to_memory index fuel self
         = dropping (_execute_command (b "SAV" ++ [byte_of_Z (48 + index)]) true fuel self)).
  { intros Hi. apply andb_true_iff in Hi as [H1 H2].
    apply Z.leb_le in H1, H2.
    rewrite (recall_from_memory_in_range index (conj H1 H2)).
    rewrite (save_to_memory_in_range index (conj H1 H2)).
    rewrite (format_int_slot index (conj H1 H2)).
    split; apply dropping_bind. }
  split; [|split].
  - split.
    + apply memory_out_of_range.
    + intros E. destruct inside eqn:Hi; [|reflexivity].
      rewrite (proj1 (Hin eq_refl)) in E. apply dropped_transaction_raises in E.
      congruence.
  - split.
    + apply memory_out_of_range.
    + intros E. destruct inside eqn:Hi; [|reflexivity].
      rewrite (proj2 (Hin eq_refl)) in E. apply dropped_transaction_raises in E.
      congruence.
  - exact Hin.
Qed.

Lemma memory_slot_checked_first_witness :
  recall_from_memory 5 1%nat (connected (scripted []) (Text (u "KORAD KA3005P")))
  = dropping (_execute_command (b "RCL5") true 1%nat
                (connected (scripted []) (Text (u "KORAD KA3005P"))))
  /\ save_to_memory 0 1%nat (connected (scripted []) (Text (u "KORAD KA3005P")))
     = Raise AssertionError (connected (scripted []) (Text (u "KORAD KA3005P"))).
Proof.
  split.
  - exact (proj1 (proj2 (proj2 (memory_slot_checked_first 5 1%nat
                                  (connected (scripted []) (Text (u "KORAD KA3005P")))))
                    eq_refl)).
  - exact (proj1 (proj1 (proj2 (memory_slot_checked_first 0 1%nat
                                  (connected (scripted []) (Text (u "KORAD KA3005P"))))))
             eq_refl).
Defined.

(* ----------------------------------------------------------------- *)
(** *** A setter and the reply it drops *)

(** What a setter comes down to when its argument passes: one
    transaction, its result dropped; and the command is not the one the
    workaround looks for. *)
Lemma setter_transaction c cmd :
  setter_command c = Some cmd ->
  cmd <> b "ISET1?"
  /\ forall fuel self,
       invoke c fuel self
       = returning (fun _ => VNone) (_execute_command cmd true ;;; ret tt) fuel self.
Proof.
  destruct c; try discriminate; cbn [setter_command invoke].
  - destruct ((0 <=? voltage) && (voltage <=? 30))%float eqn:H; [|discriminate].
    intros E. injection E as <-. split.
    + rewrite !byte_of_code. discriminate.
    + intros fuel self. now rewrite (set_output_voltage_in_range voltage H).
  - destruct ((0 <=? current) && (current <=? 5))%float eqn:H; [|discriminate].
    intros E. injection E as <-. split.
    + rewrite !byte_of_code. discriminate.
    + intros fuel self. now rewrite (set_output_current_in_range current H).
  - destruct ((1 <=? index) && (index <=? 5)) eqn:H; [|discriminate].
    apply andb_true_iff in H as [H1 H2]. apply Z.leb_le in H1, H2.
    intros E. injection E as <-. split.
    + rewrite !byte_of_code. discriminate.
    + intros fuel self. now rewrite (recall_from_memory_in_range index (conj H1 H2)).
  - destruct ((1 <=? index) && (index <=? 5)) eqn:H; [|discriminate].
    apply andb_true_iff in H as [H1 H2]. apply Z.leb_le in H1, H2.
    intros E. injection E as <-. split.
    + rewrite !byte_of_code. discriminate.
    + intros fuel self. now rewrite (save_to_memory_in_range index (conj H1 H2)).
  - intros E. injection E as <-. split; [destruct enable; discriminate|].
    intros fuel self. destruct enable; reflexivity.
  - intros E. injection E as <-. split; [destruct enable; discriminate|].
    intros fuel self. destruct enable; reflexivity.
  - intros E. injection E as <-. split; [destruct enable; discriminate|].
    intros fuel self. destruct enable; reflexivity.
Qed.

(** X8: a setter decodes the reply it then drops.  With its argument in
    range, on an open port whose next reply is [r], it writes its
    command once and returns [None] when [r] reads as a float or is
    valid UTF-8 (the empty reply of a silent device included), and
    raises [UnicodeDecodeError] when [r] is neither, the command being
    written all the same.  The reply is never cut by the [ISET1?]
    workaround. *)
Theorem setters_decode_the_reply_they_drop
  (c : call) (cmd : bytes) (fuel : nat) (self : PowerSupply) (n : nat) (r : bytes) :
  let p := _serial_port self in
  let self' := set_serial_port self (port_after p (S n) [cmd]) in
  setter_command c = Some cmd ->
  Serial.is_open p = true ->
  replies p n r ->
  (n < fuel)%nat ->
  invoke c fuel self
  = match float_of_bytes r, utf8_decode r with
    | None, None => Raise UnicodeDecodeError self'
    | _, _ => Ret VNone self'
    end.
Proof.
  intros p self' Hc Hopen Hr Hfuel.
  destruct (setter_transaction c cmd Hc) as [Hcmd Hinv].
  rewrite Hinv. unfold returning, bind.
  rewrite (execute_command_replies cmd true fuel self n r Hopen Hr Hfuel).
  rewrite (not_iset_query cmd Hcmd). unfold _decode_response.
  destruct (float_of_bytes r); [reflexivity|].
  destruct (utf8_decode r); reflexivity.
Qed.

Lemma setters_decode_the_reply_they_drop_witness :
  invoke (call_enable_output true) 2%nat
    (connected (scripted [[xff]]) (Text (u "KORAD KA3005P")))
  = Raise UnicodeDecodeError
      (set_serial_port (connected (scripted [[xff]]) (Text (u "KORAD KA3005P")))
         (port_after (Serial.open (scripted [[xff]])) 2 [b "OUT1"])).
Proof.
  apply (setters_decode_the_reply_they_drop (call_enable_output true) (b "OUT1") 2%nat
           (connected (scripted [[xff]]) (Text (u "KORAD KA3005P"))) 1%nat [xff]
           eq_refl eq_refl).
  - replies_by_computation.
  - lia.
Defined.

(* ----------------------------------------------------------------- *)
(** *** A getter and the workaround *)

Lemma perform_bug_workarounds_cut r :
  List.length r = 6%nat -> _perform_bug_workarounds (b "ISET1?") r = firstn 5 r.
Proof.
  intros H. unfold _perform_bug_workarounds. rewrite H. simpl.
  now rewrite removelast_firstn_len, H.
Qed.

(** X9: on an open port whose next reply is [r], each getter writes its
    query once and returns [r] decoded.  Only
    [get_requested_output_current] cuts the reply first: a reply of six
    bytes loses its last byte before it is decoded, so that
    [b"1.2345"] is read as 1.234, while the other getters decode all six
    bytes. *)
Theorem getters_decode_the_reply
  (fuel : nat) (self : PowerSupply) (n : nat) (r : bytes) :
  let p := _serial_port self in
  let after := fun cmd => set_serial_port self (port_after p (S n) [cmd]) in
  Serial.is_open p = true ->
  replies p n r ->
  (n < fuel)%nat ->
  get_requested_output_voltage fuel self = _decode_response r fuel (after (b "VSET1?"))
  /\ get_output_voltage fuel self = _decode_response r fuel (after (b "VOUT1?"))
  /\ get_output_current fuel self = _decode_response r fuel (after (b "IOUT1?"))
  /\ get_requested_output_current fuel self
     = _decode_response (if (List.length r =? 6)%nat then firstn 5 r else r)
         fuel (after (b "ISET1?")).
Proof.
  intros p after Hopen Hr Hfuel.
  assert (H : forall cmd,
             _execute_command cmd true fuel self
             = _decode_response (_perform_bug_workarounds cmd r) fuel (after cmd))
    by (intros cmd; exact (execute_command_replies cmd true fuel self n r Hopen Hr Hfuel)).
  split; [|split; [|split]].
  - exact (H (b "VSET1?")).
  - exact (H (b "VOUT1?")).
  - exact (H (b "IOUT1?")).
  - change (get_requested_output_current fuel self)
      with (_execute_command (b "ISET1?") true fuel self).
    rewrite (H (b "ISET1?")). f_equal.
    destruct (List.length r =? 6)%nat eqn:El.
    + apply Nat.eqb_eq in El.
      apply (perform_bug_workarounds_cut r El).
    + apply Nat.eqb_neq in El.
      unfold _perform_bug_workarounds.
      replace (Z.of_nat (List.length r) =? 6) with false
        by (symmetry; apply Z.eqb_neq; lia).
      now rewrite andb_false_r.
Qed.

Lemma getters_decode_the_reply_witness :
  get_requested_output_current 7%nat
    (connected (scripted (bytewise (b "1.2345"))) (Text (u "KORAD KA3005P")))
  = Ret (Number 1.234)
      (set_serial_port
         (connected (scripted (bytewise (b "1.2345"))) (Text (u "KORAD KA3005P")))
         (port_after (Serial.open (scripted (bytewise (b "1.2345")))) 7 [b "ISET1?"]))
  /\ get_output_current 7%nat
       (connected (scripted (bytewise (b "1.2345"))) (Text (u "KORAD KA3005P")))
     = Ret (Number 1.2345)
         (set_serial_port
            (connected (scripted (bytewise (b "1.2345"))) (Text (u "KORAD KA3005P")))
            (port_after (Serial.open (scripted (bytewise (b "1.2345")))) 7 [b "IOUT1?"])).
Proof.
  destruct (getters_decode_the_reply 7%nat
              (connected (scripted (bytewise (b "1.2345"))) (Text (u "KORAD KA3005P")))
              6%nat (b "1.2345") eq_refl)
    as (_ & _ & Hc & Hr).
  - replies_by_computation.
  - lia.
  - split.
    + rewrite Hr. vm_compute. reflexivity.
    + rewrite Hc. vm_compute. reflexivity.
Defined.

(* ================================================================= *)
(** ** Beyond the claims: the constructor and [__str__] *)

(** X10: the constructor stores the first reply of the device as it
    decodes it.  A reply that reads as a float is stored as that number,
    not as text; any other valid UTF-8 reply is stored as the string, the
    empty reply of a silent device as the empty string; a reply that is
    not UTF-8 makes the constructor raise [UnicodeDecodeError], with
    [*IDN?] written and [_id] never assigned. *)
Theorem init_decodes_the_first_reply
  (device : nat -> bytes) (fuel n : nat) (r : bytes) :
  let s1 := set_serial_port (unidentified device)
              (port_after (Serial.open device) (S n) [b "*IDN?"]) in
  replies (Serial.open device) n r ->
  (n < fuel)%nat ->
  __init__ device fuel
  = match float_of_bytes r, utf8_decode r with
    | Some x, _ => Ret tt (set_id s1 (Number x))
    | None, Some s => Ret tt (set_id s1 (Text s))
    | None, None => Raise UnicodeDecodeError s1
    end.
Proof.
  intros s1 Hr Hfuel. unfold __init__, bind. fold (unidentified device).
  rewrite get_id_transaction.
  rewrite (execute_command_replies (b "*IDN?") true fuel (unidentified device) n r
             eq_refl Hr Hfuel).
  change (_perform_bug_workarounds (b "*IDN?") r) with r.
  unfold _decode_response.
  destruct (float_of_bytes r); [reflexivity|].
  destruct (utf8_decode r); reflexivity.
Qed.

Lemma init_decodes_the_first_reply_witness :
  __init__ (scripted (bytewise (b "3005"))) 5%nat
  = Ret tt
      (set_id
         (set_serial_port (unidentified (scripted (bytewise (b "3005"))))
            (port_after (Serial.open (scripted (bytewise (b "3005")))) 5 [b "*IDN?"]))
         (Number 3005))
  /\ __init__ (scripted []) 1%nat
     = Ret tt
         (set_id
            (set_serial_port (unidentified (scripted []))
               (port_after (Serial.open (scripted [])) 1 [b "*IDN?"]))
            (Text [])).
Proof.
  split.
  - rewrite (init_decodes_the_first_reply (scripted (bytewise (b "3005"))) 5%nat 4%nat
               (b "3005")).
    + vm_compute. reflexivity.
    + replies_by_computation.
    + lia.
  - rewrite (init_decodes_the_first_reply (scripted []) 1%nat 0%nat []).
    + vm_compute. reflexivity.
    + replies_by_computation.
    + lia.
Defined.

(** X11: after a constructor that returned, [__str__] never raises and
    makes no transaction; over any sequence of method calls it returns
    the same string, [<PowerSupply> ] followed by the identity as Python
    prints it. *)
Theorem str_is_constant_after_init
  (device : nat -> bytes) (fuel : nat) (self : PowerSupply) :
  __init__ device fuel = Ret tt self ->
  exists v,
    _id self = Some v
    /\ forall self' fuel',
         later self self' ->
         __str__ fuel' self' = Ret (u "<PowerSupply> " ++ format_decoded v) self'.
Proof.
  intros H. apply init_returns in H as (v & s1 & _ & ->).
  exists v. split; [reflexivity|].
  intros self' fuel' Hl. apply later_same_id in Hl. simpl in Hl.
  unfold __str__, bind, get_identification. now rewrite Hl.
Qed.

Lemma str_is_constant_after_init_witness :
  exists self,
    __init__ (scripted (bytewise (b "KORAD KA3005P"))) 14%nat = Ret tt self
    /\ forall self',
         later self self' ->
         __str__ 0%nat self' = Ret (u "<PowerSupply> KORAD KA3005P") self'.
Proof.
  pose (self :=
          set_id
            (set_serial_port (unidentified (scripted (bytewise (b "KORAD KA3005P"))))
               (port_after (Serial.open (scripted (bytewise (b "KORAD KA3005P"))))
                  14 [b "*IDN?"]))
            (Text (u "KORAD KA3005P"))).
  assert (H : __init__ (scripted (bytewise (b "KORAD KA3005P"))) 14%nat = Ret tt self)
    by (vm_compute; reflexivity).
  exists self. split; [exact H|].
  destruct (str_is_constant_after_init _ _ _ H) as (v & Hv & Hs).
  assert (Ev : v = Text (u "KORAD KA3005P")) by (simpl in Hv; congruence).
  intros self' Hl. rewrite (Hs self' 0%nat Hl), Ev. reflexivity.
Defined.

(* ================================================================= *)
(** ** Beyond the claims: the command line example *)

Section ScriptFrame.

Variable R : PowerSupply -> PowerSupply -> Prop.
Hypothesis R_refl : forall ps, R ps ps.
Hypothesis R_trans : forall a b c, R a b -> R b c -> R a c.

Lemma script_keeps_done {A} (a : A) : script_keeps R (Cli.done a).
Proof. intros fuel out ps ps' H. injection H as <-. apply R_refl. Qed.

Lemma script_keeps_print line : script_keeps R (Cli.print line).
Proof. intros fuel out ps ps' H. injection H as <-. apply R_refl. Qed.

Lemma script_keeps_method {A} (m : M A) : keeps R m -> script_keeps R (Cli.method m).
Proof.
  intros Hm fuel out ps ps'. unfold Cli.method.
  destruct (m fuel ps) as [a s|e s|] eqn:E; simpl; intros H; try discriminate;
    injection H as <-; apply (Hm fuel); now rewrite E.
Qed.

Lemma script_keeps_next {A B} (s : Cli.Script A) (k : A -> Cli.Script B) :
  script_keeps R s -> (forall a, script_keeps R (k a)) -> script_keeps R (Cli.next s k).
Proof.
  intros Hs Hk fuel out ps ps'. unfold Cli.next.
  destruct (s fuel out ps) as [a out1 ps1|e out1 ps1|] eqn:E; simpl; intros H.
  - apply R_trans with ps1.
    + apply (Hs fuel out). now rewrite E.
    + now apply (Hk a fuel out1).
  - injection H as <-. apply (Hs fuel out). now rewrite E.
  - discriminate.
Qed.

Lemma script_keeps_when flag body :
  script_keeps R body -> script_keeps R (Cli.when flag body).
Proof. intros H. destruct flag; [exact H | apply script_keeps_done]. Qed.

Lemma script_keeps_given {A} (o : option A) body :
  (forall a, script_keeps R (body a)) -> script_keeps R (Cli.given o body).
Proof. intros H. destruct o; [apply H | apply script_keeps_done]. Qed.

End ScriptFrame.

Lemma unwrapped_only_io {A} (m : M A) (f : A -> value) :
  keeps only_io (returning f m) -> keeps only_io m.
Proof.
  intros H fuel self self' E. apply (H fuel). unfold returning, bind.
  destruct (m fuel self); simpl in *; congruence.
Qed.

(* ----------------------------------------------------------------- *)
(** *** What [main] has sent and printed when it returns *)

Lemma decode_response_same_state r fuel self (v : decoded) self' :
  _decode_response r fuel self = Ret v self' -> self' = self.
Proof.
  intros H. symmetry.
  apply (keeps_decode_response eq (fun s => eq_refl) r fuel self self').
  now rewrite H.
Qed.

(** Within [fuel] reads the device pauses, or it does not. *)
Lemma first_pause (p : Serial.port) (fuel : nat) :
  (exists n, (n < fuel)%nat
             /\ (forall i, (i < n)%nat -> Serial.incoming p (Serial.reads p + i)%nat <> [])
             /\ Serial.incoming p (Serial.reads p + n)%nat = [])
  \/ (forall i, (i < fuel)%nat -> Serial.incoming p (Serial.reads p + i)%nat <> []).
Proof.
  induction fuel as [|fuel [(n & Hn & Hne & He)|Hall]].
  - right. intros i Hi. lia.
  - left. exists n. split; [lia|]. now split.
  - destruct (Serial.incoming p (Serial.reads p + fuel)%nat) as [|x chunk] eqn:E.
    + left. exists fuel. split; [lia|]. now split.
    + right. intros i Hi. destruct (Nat.eq_dec i fuel) as [->|Hd].
      * rewrite E. discriminate.
      * apply Hall. lia.
Qed.

(** A transaction that returns has read one reply, up to the first
    pause of the device, and returns it decoded. *)
Lemma execute_command_inv cmd fuel self (v : decoded) self' :
  _execute_command cmd true fuel self = Ret v self' ->
  exists n r,
    (n < fuel)%nat
    /\ replies (_serial_port self) n r
    /\ self' = set_serial_port self (port_after (_serial_port self) (S n) [cmd])
    /\ _decode_response (_perform_bug_workarounds cmd r) fuel self' = Ret v self'.
Proof.
  intros H.
  destruct (execute_command_returns cmd true fuel self v self' H) as (Hopen & _).
  destruct (first_pause (_serial_port self) fuel) as [(n & Hn & Hne & He)|Hall].
  - exists n, (List.concat (chunks (_serial_port self) n)).
    assert (Hr : replies (_serial_port self) n (List.concat (chunks (_serial_port self) n)))
      by (split; [exact Hne | split; [exact He | reflexivity]]).
    pose proof (execute_command_replies cmd true fuel self n _ Hopen Hr Hn) as E.
    cbv iota in E. rewrite E in H.
    pose proof (decode_response_same_state _ _ _ _ _ H) as ->.
    split; [exact Hn|]. split; [exact Hr|]. split; [reflexivity | exact H].
  - exfalso. revert H.
    unfold _execute_command, bind at 1. unfold serial_write.
    rewrite (write_open _ _ Hopen). unfold bind at 1.
    rewrite read_loop_goes_on; [discriminate | exact Hopen | ].
    intros i Hi. simpl. rewrite Nat.add_0_r. now apply Hall.
Qed.

Lemma decode_response_decodes r fuel self (v : decoded) self' :
  _decode_response r fuel self = Ret v self' -> decodes_to r v.
Proof.
  unfold decodes_to, _decode_response.
  destruct (float_of_bytes r).
  - intros H fuel' self0. injection H as <- _. reflexivity.
  - destruct (utf8_decode r); [|discriminate].
    intros H fuel' self0. injection H as <- _. reflexivity.
Qed.

Lemma delivers_snoc rs :
  forall p ws n r,
    delivers p rs ->
    replies (port_after p (reads_of rs) ws) n r ->
    delivers p (rs ++ [(n, r)]).
Proof.
  induction rs as [|[n0 r0] rs IH]; intros p ws n r; simpl.
  - intros _ H. split; [|exact I].
    apply (replies_same_input (port_after p 0 ws)); [reflexivity | | exact H].
    simpl. lia.
  - intros [H0 Hrs] H. split; [exact H0|].
    apply (IH _ ws n r Hrs).
    apply (replies_same_input (port_after p (S (n0 + reads_of rs)) ws));
      [reflexivity | simpl; lia | exact H].
Qed.

Lemma reads_of_snoc rs n r : reads_of (rs ++ [(n, r)]) = (reads_of rs + S n)%nat.
Proof.
  induction rs as [|[n0 r0] rs IH]; [simpl; lia|].
  change (reads_of (((n0, r0) :: rs) ++ [(n, r)]))
    with (S n0 + reads_of (rs ++ [(n, r)]))%nat.
  change (reads_of ((n0, r0) :: rs)) with (S n0 + reads_of rs)%nat.
  rewrite IH. lia.
Qed.

(** One more transaction, one more entry in the exchange. *)
Lemma transaction_exchange device log cmd fuel self (v : decoded) self' :
  cmd <> b "ISET1?" ->
  exchange_at device log (_serial_port self) ->
  _execute_command cmd true fuel self = Ret v self' ->
  exchange_at device (log ++ [(cmd, v)]) (_serial_port self').
Proof.
  intros Hc (rs & Hd & Hv & Hp) H.
  apply execute_command_inv in H as (n & r & _ & Hr & -> & Hdec).
  rewrite (not_iset_query cmd Hc) in Hdec.
  exists (rs ++ [(n, r)]). split; [|split].
  - apply (delivers_snoc rs _ (map fst log) n r Hd). now rewrite <- Hp.
  - apply Forall2_app; [exact Hv|].
    constructor; [|constructor]. exact (decode_response_decodes _ _ _ _ _ Hdec).
  - simpl _serial_port. rewrite Hp, port_after_after, reads_of_snoc, map_app.
    reflexivity.
Qed.

Lemma exchange_at_exchanged device log p :
  exchange_at device log p -> exchanged device log.
Proof. intros (rs & Hd & Hv & _). now exists rs. Qed.

Lemma init_exchange device fuel self :
  __init__ device fuel = Ret tt self ->
  exists id,
    _id self = Some id
    /\ exchange_at device [(b "*IDN?", id)] (_serial_port self).
Proof.
  intros H. apply init_returns in H as (v & s1 & E & ->).
  exists v. split; [reflexivity|].
  apply (transaction_exchange device [] (b "*IDN?") fuel (unidentified device) v s1);
    [discriminate | | exact E].
  exists []. split; [exact I|]. split; [constructor|].
  simpl. now rewrite port_after_0.
Qed.

(** A setter asked for by an option: one entry, no line. *)
Lemma setter_exchange {A} device log (o : option A) (m : A -> M unit)
      (inside : A -> bool) (cmd : A -> bytes) fuel out self out1 self1 :
  (forall a s, inside a = false -> m a fuel s = Raise AssertionError s) ->
  (forall a s, inside a = true ->
               m a fuel s = dropping (_execute_command (cmd a) true fuel s)) ->
  (forall a, cmd a <> b "ISET1?") ->
  (forall a v, Cli.line (cmd a) v = []) ->
  exchange_at device log (_serial_port self) ->
  Cli.given o (fun a => Cli.method (m a)) fuel out self = Cli.Done tt out1 self1 ->
  exists l,
    exchange_at device (log ++ l) (_serial_port self1)
    /\ map fst l = match o with Some a => [cmd a] | None => [] end
    /\ flat_map (fun cv => Cli.line (fst cv) (snd cv)) l = [].
Proof.
  intros Hout Hin Hc Hl He. destruct o as [a|]; simpl.
  - unfold Cli.method. destruct (inside a) eqn:Ei.
    + rewrite (Hin a self Ei).
      destruct (_execute_command (cmd a) true fuel self) as [v s|e s|] eqn:E;
        try discriminate.
      intros H. injection H as _ <-.
      exists [(cmd a, v)]. split; [|split].
      * exact (transaction_exchange device log (cmd a) fuel self v s (Hc a) He E).
      * reflexivity.
      * simpl. now rewrite Hl.
    + rewrite (Hout a self Ei). discriminate.
  - intros H. injection H as _ <-. exists []. rewrite app_nil_r. now split.
Qed.

(** A read-out asked for by a flag: one entry, and its line. *)
Lemma getter_exchange device log (flag : bool) (cmd : bytes) (m : M decoded)
      (text : decoded -> str) fuel out self out1 self1 :
  (forall s, m fuel s = _execute_command cmd true fuel s) ->
  cmd <> b "ISET1?" ->
  (forall v, Cli.line cmd v = [text v]) ->
  exchange_at device log (_serial_port self) ->
  Cli.when flag (Cli.next (Cli.method m) (fun v => Cli.print (text v))) fuel out self
  = Cli.Done tt out1 self1 ->
  exists l,
    exchange_at device (log ++ l) (_serial_port self1)
    /\ map fst l = (if flag then [cmd] else [])
    /\ out1 = out ++ flat_map (fun cv => Cli.line (fst cv) (snd cv)) l.
Proof.
  intros Hm Hc Hl He. destruct flag; simpl.
  - unfold Cli.next, Cli.method, Cli.print. rewrite Hm.
    destruct (_execute_command cmd true fuel self) as [v s|e s|] eqn:E; try discriminate.
    intros H. injection H as <- <-.
    exists [(cmd, v)]. split; [|split].
    + exact (transaction_exchange device log cmd fuel self v s Hc He E).
    + reflexivity.
    + simpl. now rewrite Hl, app_nil_r.
  - intros H. injection H as <- <-. exists []. rewrite !app_nil_r. now split.
Qed.

(** No command of a setter is one of the two read-outs. *)
Lemma line_other cmd v :
  cmd <> b "VOUT1?" -> cmd <> b "IOUT1?" -> Cli.line cmd v = [].
Proof.
  intros H1 H2. unfold Cli.line, bytes_eqb.
  destruct (bytes_eq_dec cmd (b "VOUT1?")); [contradiction|].
  destruct (bytes_eq_dec cmd (b "IOUT1?")); [contradiction | reflexivity].
Qed.

Lemma next_done {A B} (s : Cli.Script A) (k : A -> Cli.Script B) fuel out ps b' out' ps' :
  Cli.next s k fuel out ps = Cli.Done b' out' ps' ->
  exists a out1 ps1,
    s fuel out ps = Cli.Done a out1 ps1 /\ k a fuel out1 ps1 = Cli.Done b' out' ps'.
Proof.
  unfold Cli.next. destruct (s fuel out ps) as [a out1 ps1|e out1 ps1|]; try discriminate.
  intros H. now exists a, out1, ps1.
Qed.

Lemma transaction_returns cmd fuel ps (v : decoded) ps1 :
  _execute_command cmd true fuel ps = Ret v ps1 ->
  Serial.written (_serial_port ps1) = Serial.written (_serial_port ps) ++ [cmd]
  /\ _id ps1 = _id ps.
Proof.
  intros E. split.
  - exact (proj2 (proj2 (execute_command_returns cmd true fuel ps v ps1 E))).
  - apply (f_equal state_after) in E.
    apply (keeps_execute_command only_io only_io_refl only_io_trans
             only_io_write only_io_read) in E.
    apply E.
Qed.

Lemma dropped_transaction_returns cmd fuel ps ps1 :
  dropping (_execute_command cmd true fuel ps) = Ret tt ps1 ->
  Serial.written (_serial_port ps1) = Serial.written (_serial_port ps) ++ [cmd]
  /\ _id ps1 = _id ps.
Proof.
  destruct (_execute_command cmd true fuel ps) as [v s|e s|] eqn:E; try discriminate.
  intros H. injection H as <-. exact (transaction_returns cmd fuel ps v s E).
Qed.

(** A step that calls a setter when its option was given. *)
Lemma setter_step {A} (o : option A) (m : A -> M unit) (inside : A -> bool)
      (cmd : A -> bytes) fuel out ps out1 ps1 :
  (forall a self, inside a = false -> m a fuel self = Raise AssertionError self) ->
  (forall a self, inside a = true ->
                  m a fuel self = dropping (_execute_command (cmd a) true fuel self)) ->
  Cli.given o (fun a => Cli.method (m a)) fuel out ps = Cli.Done tt out1 ps1 ->
  out1 = out
  /\ _id ps1 = _id ps
  /\ Serial.written (_serial_port ps1)
     = Serial.written (_serial_port ps)
       ++ match o with Some a => [cmd a] | None => [] end
  /\ forall a, o = Some a -> inside a = true.
Proof.
  intros Hout Hin. destruct o as [a|]; simpl.
  - unfold Cli.method. destruct (inside a) eqn:Ei.
    + rewrite (Hin a ps Ei).
      destruct (dropping _) as [[] s|e s|] eqn:E; try discriminate.
      intros H. injection H as <- <-.
      destruct (dropped_transaction_returns _ _ _ _ E) as [Hw Hi].
      repeat split; try assumption. intros a' Ea. congruence.
    + rewrite (Hout a ps Ei). discriminate.
  - intros H. injection H as <- <-. rewrite app_nil_r.
    repeat split. discriminate.
Qed.

(** A step that calls a getter and prints what it returned when its
    flag was given. *)
Lemma getter_step (flag : bool) (cmd : bytes) (m : M decoded) (line : decoded -> str)
      fuel out ps out1 ps1 :
  (forall self, m fuel self = _execute_command cmd true fuel self) ->
  Cli.when flag (Cli.next (Cli.method m) (fun v => Cli.print (line v))) fuel out ps
  = Cli.Done tt out1 ps1 ->
  _id ps1 = _id ps
  /\ Serial.written (_serial_port ps1)
     = Serial.written (_serial_port ps) ++ (if flag then [cmd] else [])
  /\ exists v, out1 = out ++ (if flag then [line v] else []).
Proof.
  intros Hm. destruct flag; simpl.
  - unfold Cli.next, Cli.method, Cli.print. rewrite Hm.
    destruct (_execute_command cmd true fuel ps) as [v s|e s|] eqn:E; try discriminate.
    intros H. injection H as <- <-.
    destruct (transaction_returns cmd fuel ps v s E) as [Hw Hi].
    split; [exact Hi|]. split; [exact Hw|]. now exists v.
  - intros H. injection H as <- <-. rewrite !app_nil_r.
    split; [reflexivity|]. split; [reflexivity|]. exists (Text []). reflexivity.
Qed.

Lemma identification_step (flag : bool) fuel out ps out1 ps1 id :
  _id ps = Some id ->
  Cli.when flag
    (Cli.next (Cli.method get_identification) (fun v => Cli.print (format_decoded v)))
    fuel out ps = Cli.Done tt out1 ps1 ->
  ps1 = ps /\ out1 = out ++ (if flag then [format_decoded id] else []).
Proof.
  intros Hid. destruct flag; simpl.
  - unfold Cli.next, Cli.method, Cli.print, get_identification. rewrite Hid.
    intros H. injection H as <- <-. auto.
  - intros H. injection H as <- <-. now rewrite app_nil_r.
Qed.

Lemma enable_output_dropping e fuel self :
  enable_output e fuel self
  = dropping (_execute_command (if e then b "OUT1" else b "OUT0") true fuel self).
Proof. destruct e; apply dropping_bind. Qed.

Lemma identity_of_init device fuel self :
  __init__ device fuel = Ret tt self ->
  exists id, _id self = Some id /\ Serial.written (_serial_port self) = [b "*IDN?"].
Proof.
  intros H. apply init_returns in H as (v & s1 & E & ->).
  exists v. split; [reflexivity|]. simpl.
  exact (proj1 (transaction_returns (b "*IDN?") fuel (unidentified device) v s1 E)).
Qed.

(** X13: when [main] returns, it returns 0; every option given was in
    range; the commands were written in the order of the script,
    whatever the order of the options: [*IDN?], then the current, the
    voltage, the memory slot, the two read-outs and the output switch,
    each only if asked for.  The device has answered each of them in
    turn, and what is printed is read off its answers: the identity,
    from the answer to [*IDN?] that the constructor cached ([-i] sends
    nothing), then the answer to [VOUT1?] and the answer to [IOUT1?],
    decoded, in that order; the answers to the setters are not
    printed. *)
Theorem main_sends_commands_in_order
  (args : Cli.Namespace) (fuel : nat) (code : Z) (out : list str)
  (power_suppy : PowerSupply) :
  Cli.main args fuel = Cli.Done code out power_suppy ->
  code = 0
  /\ Serial.written (_serial_port power_suppy) = b "*IDN?" :: Cli.commands args
  /\ (forall c, Cli.current args = Some c -> ((0 <=? c) && (c <=? 5))%float = true)
  /\ (forall v, Cli.voltage args = Some v -> ((0 <=? v) && (v <=? 30))%float = true)
  /\ (forall i, Cli.memory args = Some i -> 1 <= i <= 5)
  /\ exists id log,
       _id power_suppy = Some id
       /\ map fst log = Cli.commands args
       /\ exchanged (Cli.port args) ((b "*IDN?", id) :: log)
       /\ out = (if Cli.identification args then [format_decoded id] else [])
                ++ flat_map (fun cv => Cli.line (fst cv) (snd cv)) log.
Proof.
  unfold Cli.main.
  destruct (__init__ (Cli.port args) fuel) as [[] ps0|e ps0|] eqn:Ei; try discriminate.
  destruct (identity_of_init _ _ _ Ei) as (id & Hid0 & Hw0).
  destruct (init_exchange _ _ _ Ei) as (id' & Hid' & He0).
  assert (id' = id) as -> by congruence. clear Hid'.
  unfold Cli.main_with. intros H.
  apply next_done in H as ([] & o1 & p1 & S1 & H).
  apply (identification_step _ _ _ _ _ _ id Hid0) in S1 as [-> ->].
  apply next_done in H as ([] & o2 & p2 & S2 & H).
  pose proof S2 as T2.
  apply (setter_exchange (Cli.port args) [(b "*IDN?", id)] _ set_output_current
           (fun c => ((0 <=? c) && (c <=? 5))%float)
           (fun c => map byte_of_Z (u "ISET1:" ++ format_float c))) in T2
    as (l2 & He2 & Hm2 & Hf2);
    [ | intros a self Ha; now apply set_output_current_out_of_range
      | intros a self Ha; rewrite (set_output_current_in_range a Ha);
        apply dropping_bind
      | intros a; simpl; rewrite !byte_of_code; discriminate
      | intros a v; apply line_other; simpl; rewrite !byte_of_code; discriminate
      | exact He0 ].
  apply (setter_step _ set_output_current
           (fun c => ((0 <=? c) && (c <=? 5))%float)
           (fun c => map byte_of_Z (u "ISET1:" ++ format_float c))) in S2
    as (-> & Hi2 & Hw2 & Hr2);
    [ | intros a self Ha; now apply set_output_current_out_of_range
      | intros a self Ha; rewrite (set_output_current_in_range a Ha);
        apply dropping_bind ].
  apply next_done in H as ([] & o3 & p3 & S3 & H).
  pose proof S3 as T3.
  apply (setter_exchange (Cli.port args) ([(b "*IDN?", id)] ++ l2) _ set_output_voltage
           (fun v => ((0 <=? v) && (v <=? 30))%float)
           (fun v => map byte_of_Z (u "VSET1:" ++ format_float v))) in T3
    as (l3 & He3 & Hm3 & Hf3);
    [ | intros a self Ha; now apply set_output_voltage_out_of_range
      | intros a self Ha; rewrite (set_output_voltage_in_range a Ha);
        apply dropping_bind
      | intros a; simpl; rewrite !byte_of_code; discriminate
      | intros a v; apply line_other; simpl; rewrite !byte_of_code; discriminate
      | exact He2 ].
  apply (setter_step _ set_output_voltage
           (fun v => ((0 <=? v) && (v <=? 30))%float)
           (fun v => map byte_of_Z (u "VSET1:" ++ format_float v))) in S3
    as (-> & Hi3 & Hw3 & Hr3);
    [ | intros a self Ha; now apply set_output_voltage_out_of_range
      | intros a self Ha; rewrite (set_output_voltage_in_range a Ha);
        apply dropping_bind ].
  apply next_done in H as ([] & o4 & p4 & S4 & H).
  pose proof S4 as T4.
  apply (setter_exchange (Cli.port args) (([(b "*IDN?", id)] ++ l2) ++ l3) _
           recall_from_memory
           (fun i => (1 <=? i) && (i <=? 5))
           (fun i => map byte_of_Z (u "RCL" ++ format_int i))) in T4
    as (l4 & He4 & Hm4 & Hf4);
    [ | intros a self Ha; now apply memory_out_of_range
      | intros a self Ha; apply andb_true_iff in Ha as [H1 H2];
        apply Z.leb_le in H1, H2;
        rewrite (recall_from_memory_in_range a (conj H1 H2)); apply dropping_bind
      | intros a; simpl; rewrite !byte_of_code; discriminate
      | intros a v; apply line_other; simpl; rewrite !byte_of_code; discriminate
      | exact He3 ].
  apply (setter_step _ recall_from_memory
           (fun i => (1 <=? i) && (i <=? 5))
           (fun i => map byte_of_Z (u "RCL" ++ format_int i))) in S4
    as (-> & Hi4 & Hw4 & Hr4);
    [ | intros a self Ha; now apply memory_out_of_range
      | intros a self Ha; apply andb_true_iff in Ha as [H1 H2];
        apply Z.leb_le in H1, H2;
        rewrite (recall_from_memory_in_range a (conj H1 H2)); apply dropping_bind ].
  apply next_done in H as ([] & o5 & p5 & S5 & H).
  pose proof S5 as T5.
  apply (getter_exchange (Cli.port args) ((([(b "*IDN?", id)] ++ l2) ++ l3) ++ l4) _
           (b "VOUT1?")) in T5
    as (l5 & He5 & Hm5 & ->);
    [ | reflexivity | discriminate | intros v; reflexivity | exact He4 ].
  apply (getter_step _ (b "VOUT1?")) in S5 as (Hi5 & Hw5 & _);
    [ | reflexivity ].
  apply next_done in H as ([] & o6 & p6 & S6 & H).
  pose proof S6 as T6.
  apply (getter_exchange (Cli.port args)
           (((([(b "*IDN?", id)] ++ l2) ++ l3) ++ l4) ++ l5) _ (b "IOUT1?")) in T6
    as (l6 & He6 & Hm6 & ->);
    [ | reflexivity | discriminate | intros v; reflexivity | exact He5 ].
  apply (getter_step _ (b "IOUT1?")) in S6 as (Hi6 & Hw6 & _);
    [ | reflexivity ].
  apply next_done in H as ([] & o7 & p7 & S7 & H).
  pose proof S7 as T7.
  apply (setter_exchange (Cli.port args)
           ((((([(b "*IDN?", id)] ++ l2) ++ l3) ++ l4) ++ l5) ++ l6) _
           enable_output (fun _ => true)
           (fun e => if e then b "OUT1" else b "OUT0")) in T7
    as (l7 & He7 & Hm7 & Hf7);
    [ | discriminate
      | intros a self _; apply enable_output_dropping
      | intros a; destruct a; discriminate
      | intros a v; destruct a; reflexivity
      | exact He6 ].
  apply (setter_step _ enable_output (fun _ => true)
           (fun e => if e then b "OUT1" else b "OUT0")) in S7
    as (-> & Hi7 & Hw7 & _);
    [ | discriminate | intros a self _; apply enable_output_dropping ].
  injection H as <- <- <-.
  split; [reflexivity|]. split.
  - rewrite Hw7, Hw6, Hw5, Hw4, Hw3, Hw2, Hw0. unfold Cli.commands.
    rewrite <- !app_assoc. reflexivity.
  - split; [exact Hr2|]. split; [exact Hr3|]. split.
    + intros i Hi. specialize (Hr4 i Hi). apply andb_true_iff in Hr4 as [H1 H2].
      apply Z.leb_le in H1, H2. lia.
    + exists id, (l2 ++ l3 ++ l4 ++ l5 ++ l6 ++ l7). split; [congruence|]. split; [|split].
      * rewrite !map_app, Hm2, Hm3, Hm4, Hm5, Hm6, Hm7. reflexivity.
      * apply exchange_at_exchanged in He7.
        rewrite <- !app_assoc in He7. exact He7.
      * rewrite !flat_map_app, Hf2, Hf3, Hf4, Hf7.
        simpl. rewrite app_nil_r, <- !app_assoc. reflexivity.
Qed.

Lemma main_sends_commands_in_order_witness :
  match
    Cli.main
      {| Cli.port := scripted (bytewise (b "KORAD KA3005P") ++ [[]] ++ bytewise (b "12.50"));
         Cli.identification := true;
         Cli.current := Some 1.5%float;
         Cli.voltage := None;
         Cli.memory := None;
         Cli.currentout := false;
         Cli.voltageout := true;
         Cli.enable := None |} 14%nat
  with
  | Cli.Done code out power_suppy =>
      code = 0
      /\ Serial.written (_serial_port power_suppy)
         = [b "*IDN?"; b "ISET1:1.5"; b "VOUT1?"]
      /\ out = [u "KORAD KA3005P"; u "Voltage: 12.5 V"]
  | _ => False
  end.
Proof.
  destruct (Cli.main _ 14%nat) as [code out ps|e out ps|] eqn:E.
  - destruct (main_sends_commands_in_order _ _ _ _ _ E) as (Hc & Hw & _).
    split; [exact Hc|]. split; [rewrite Hw; vm_compute; reflexivity|].
    vm_compute in E. now injection E as _ <- _.
  - vm_compute in E. discriminate.
  - vm_compute in E. discriminate.
Defined.

(* ----------------------------------------------------------------- *)
(** *** Options are applied one by one *)

Lemma next_uncaught {A B} (s : Cli.Script A) (k : A -> Cli.Script B) fuel out ps e out' ps' :
  Cli.next s k fuel out ps = Cli.Uncaught e out' ps' ->
  s fuel out ps = Cli.Uncaught e out' ps'
  \/ exists a out1 ps1,
       s fuel out ps = Cli.Done a out1 ps1 /\ k a fuel out1 ps1 = Cli.Uncaught e out' ps'.
Proof.
  unfold Cli.next. destruct (s fuel out ps) as [a out1 ps1|e1 out1 ps1|]; try discriminate.
  - intros H. right. now exists a, out1, ps1.
  - intros H. injection H as -> -> ->. now left.
Qed.

(** What follows the current in [main] only adds to what was written. *)
Lemma main_after_current_only_io args :
  script_keeps only_io
    (Cli.next (Cli.given (Cli.voltage args) (fun v => Cli.method (set_output_voltage v)))
       (fun _ =>
     Cli.next (Cli.given (Cli.memory args) (fun i => Cli.method (recall_from_memory i)))
       (fun _ =>
     Cli.next (Cli.when (Cli.voltageout args)
                 (Cli.next (Cli.method get_output_voltage)
                    (fun v => Cli.print (u "Voltage: " ++ format_decoded v ++ u " V"))))
       (fun _ =>
     Cli.next (Cli.when (Cli.currentout args)
                 (Cli.next (Cli.method get_output_current)
                    (fun v => Cli.print (u "Current: " ++ format_decoded v ++ u " A"))))
       (fun _ =>
     Cli.next (Cli.given (Cli.enable args) (fun e => Cli.method (enable_output e)))
       (fun _ => Cli.done 0)))))).
Proof.
  pose proof only_io_refl as Hr. pose proof only_io_trans as Ht.
  repeat first
    [ apply script_keeps_done; assumption
    | apply script_keeps_print; assumption
    | apply script_keeps_when; try assumption
    | apply script_keeps_given; try assumption; intros ?
    | apply script_keeps_next; try assumption; [ | intros ? ]
    | apply script_keeps_method ].
  all: match goal with
       | |- keeps only_io (set_output_voltage ?x) =>
           exact (unwrapped_only_io _ _
                    (invoke_only_io (call_set_output_voltage x) ltac:(discriminate)))
       | |- keeps only_io (recall_from_memory ?x) =>
           exact (unwrapped_only_io _ _
                    (invoke_only_io (call_recall_from_memory x) ltac:(discriminate)))
       | |- keeps only_io get_output_voltage =>
           exact (unwrapped_only_io _ _
                    (invoke_only_io call_get_output_voltage ltac:(discriminate)))
       | |- keeps only_io get_output_current =>
           exact (unwrapped_only_io _ _
                    (invoke_only_io call_get_output_current ltac:(discriminate)))
       | |- keeps only_io (enable_output ?x) =>
           exact (unwrapped_only_io _ _
                    (invoke_only_io (call_enable_output x) ltac:(discriminate)))
       end.
Qed.

(** X14: [main] checks an option only when it comes to it.  When it
    ends by an [AssertionError] although the current given was in
    range, the error is the voltage's or the memory slot's, and the
    current has already been sent to the device: what was written
    starts with [*IDN?] and the [ISET1:] command. *)
Theorem main_sets_current_before_it_checks_the_rest
  (args : Cli.Namespace) (fuel : nat) (c : float) (out : list str)
  (power_suppy : PowerSupply) :
  Cli.current args = Some c ->
  ((0 <=? c) && (c <=? 5))%float = true ->
  Cli.main args fuel = Cli.Uncaught AssertionError out power_suppy ->
  exists rest,
    Serial.written (_serial_port power_suppy)
    = b "*IDN?" :: map byte_of_Z (u "ISET1:" ++ format_float c) :: rest.
Proof.
  intros Hcur Hin. unfold Cli.main.
  destruct (__init__ (Cli.port args) fuel) as [[] ps0|e ps0|] eqn:Ei; try discriminate.
  - destruct (identity_of_init _ _ _ Ei) as (id & Hid0 & Hw0).
    unfold Cli.main_with. rewrite Hcur. intros H.
    apply next_uncaught in H as [H|([] & o1 & p1 & S1 & H)].
    { destruct (Cli.identification args); simpl in H; [|discriminate].
      unfold Cli.next, Cli.method, Cli.print, get_identification in H.
      rewrite Hid0 in H. discriminate. }
    apply (identification_step _ _ _ _ _ _ id Hid0) in S1 as [-> ->].
    apply next_uncaught in H as [H|([] & o2 & p2 & S2 & H)].
    { simpl in H. unfold Cli.method in H.
      rewrite (set_output_current_in_range c Hin), dropping_bind in H.
      destruct (dropping _) as [[] s|e s|] eqn:E; try discriminate.
      injection H as -> _ _. apply dropped_transaction_raises in E. congruence. }
    simpl in S2. unfold Cli.method in S2.
    rewrite (set_output_current_in_range c Hin), dropping_bind in S2.
    destruct (dropping _) as [[] s|e s|] eqn:E; try discriminate.
    injection S2 as <- <-.
    destruct (dropped_transaction_returns _ _ _ _ E) as [Hw _].
    assert (Hio : only_io s power_suppy).
    { refine (main_after_current_only_io args fuel _ s power_suppy _).
      cbv beta in H. rewrite H. reflexivity. }
    destruct Hio as (_ & _ & _ & ws & Hws).
    exists ws. rewrite Hws, Hw, Hw0. reflexivity.
  - intros H. injection H as -> _ _.
    revert Ei. unfold __init__, bind. fold (unidentified (Cli.port args)).
    rewrite get_id_transaction.
    destruct (_execute_command (b "*IDN?") true fuel _) as [v s1|e1 s1|] eqn:Eg;
      try discriminate.
    intros Ei. injection Ei as -> _.
    destruct (execute_command_raises _ true fuel _ _ _ Eg); discriminate.
Qed.

Lemma main_sets_current_before_it_checks_the_rest_witness :
  exists rest,
    Serial.written
      (_serial_port
         (set_serial_port
            (set_id (unidentified (scripted [])) (Text []))
            (port_after (Serial.open (scripted [])) 2 [b "*IDN?"; b "ISET1:1.5"])))
    = b "*IDN?" :: map byte_of_Z (u "ISET1:" ++ format_float 1.5) :: rest.
Proof.
  apply (main_sets_current_before_it_checks_the_rest
           {| Cli.port := scripted [];
              Cli.identification := false;
              Cli.current := Some 1.5%float;
              Cli.voltage := Some 31%float;
              Cli.memory := None;
              Cli.currentout := false;
              Cli.voltageout := false;
              Cli.enable := Some true |} 1%nat 1.5%float [] _ eq_refl eq_refl).
  vm_compute. reflexivity.
Defined.

(* ================================================================= *)
(** ** Beyond the claims: one transaction after the other *)

(** X15: nothing is flushed between two transactions.  When the device
    delivers [r1], pauses, and delivers [r2], a first transaction that
    returns has decoded [r1], and the one that follows takes [r2] for
    its reply, whatever command it sends and whether or not [r2] was
    meant for it; both commands are in the log, in order. *)
Theorem transactions_take_replies_in_turn
  (cmd1 cmd2 : bytes) (fuel : nat) (self self1 : PowerSupply) (v1 : decoded)
  (n1 n2 : nat) (r1 r2 : bytes) :
  let p := _serial_port self in
  Serial.is_open p = true ->
  delivers p [(n1, r1); (n2, r2)] ->
  (n1 < fuel)%nat -> (n2 < fuel)%nat ->
  _execute_command cmd1 true fuel self = Ret v1 self1 ->
  _decode_response (_perform_bug_workarounds cmd1 r1) fuel self1 = Ret v1 self1
  /\ _execute_command cmd2 true fuel self1
     = _decode_response (_perform_bug_workarounds cmd2 r2) fuel
         (set_serial_port self (port_after p (S n1 + S n2) [cmd1; cmd2])).
Proof.
  intros p Hopen (H1 & H2 & _) Hf1 Hf2 E.
  pose proof (execute_command_replies cmd1 true fuel self n1 r1 Hopen H1 Hf1) as E1.
  cbv iota in E1. rewrite E1 in E.
  pose proof (decode_response_same_state _ _ _ _ _ E) as ->.
  split; [exact E|].
  pose proof (execute_command_replies cmd2 true fuel
                (set_serial_port self (port_after (_serial_port self) (S n1) [cmd1]))
                n2 r2 Hopen) as E2.
  cbv iota in E2. rewrite E2; [| |exact Hf2].
  - simpl _serial_port. rewrite set_serial_port_twice, port_after_after. reflexivity.
  - simpl _serial_port.
    now apply (replies_same_input (port_after (_serial_port self) (S n1) [])).
Qed.

Lemma transactions_take_replies_in_turn_witness :
  get_output_voltage 5%nat
    (connected (scripted (bytewise (b "12.") ++ bytewise (b "50"))) (Text (u "KORAD")))
  = Ret (Number 12)
      (set_serial_port
         (connected (scripted (bytewise (b "12.") ++ bytewise (b "50"))) (Text (u "KORAD")))
         (port_after (Serial.open (scripted (bytewise (b "12.") ++ bytewise (b "50"))))
            4 [b "VOUT1?"]))
  /\ get_output_current 5%nat
       (set_serial_port
          (connected (scripted (bytewise (b "12.") ++ bytewise (b "50"))) (Text (u "KORAD")))
          (port_after (Serial.open (scripted (bytewise (b "12.") ++ bytewise (b "50"))))
             4 [b "VOUT1?"]))
     = Ret (Number 50)
         (set_serial_port
            (connected (scripted (bytewise (b "12.") ++ bytewise (b "50")))
               (Text (u "KORAD")))
            (port_after (Serial.open (scripted (bytewise (b "12.") ++ bytewise (b "50"))))
               7 [b "VOUT1?"; b "IOUT1?"])).
Proof.
  assert (E : _execute_command (b "VOUT1?") true 5%nat
                (connected (scripted (bytewise (b "12.") ++ bytewise (b "50")))
                   (Text (u "KORAD")))
              = Ret (Number 12)
                  (set_serial_port
                     (connected (scripted (bytewise (b "12.") ++ bytewise (b "50")))
                        (Text (u "KORAD")))
                     (port_after
                        (Serial.open (scripted (bytewise (b "12.") ++ bytewise (b "50"))))
                        4 [b "VOUT1?"])))
    by (vm_compute; reflexivity).
  split; [exact E|].
  assert (D : delivers
                (Serial.open (scripted (bytewise (b "12.") ++ bytewise (b "50"))))
                [(3%nat, b "12."); (2%nat, b "50")]).
  { split; [replies_by_computation|]. split; [replies_by_computation|exact I]. }
  destruct (transactions_take_replies_in_turn (b "VOUT1?") (b "IOUT1?") 5%nat
              (connected (scripted (bytewise (b "12.") ++ bytewise (b "50")))
                 (Text (u "KORAD")))
              _ _ 3%nat 2%nat (b "12.") (b "50") eq_refl D
              ltac:(lia) ltac:(lia) E) as [_ H].
  change (get_output_current 5%nat) with (_execute_command (b "IOUT1?") true 5%nat).
  rewrite H. vm_compute. reflexivity.
Defined.
